(** * The offline sync queue of [SyncContext] (src/unnamed/part_000)

    A shallow embedding of the [SyncProvider] component: its two queues
    ([queue], [failedQueue]), the idb-keyval mirror of both, and the four
    operations it exports ([addOfflineAction], [syncNow],
    [retryFailedAction], [discardFailedAction]).

    Modelling choices, all taken from the source:
    - React state is a record of the committed values; a [setX v] call
      commits [v].  The operations are closures: they read the values of
      [queue] and [failedQueue] captured by the render that created them,
      so those values are explicit arguments here (suffix [_c]).  A caller
      that uses the closure of the current render passes the current state.
    - idb-keyval is a [gmap] from keys to stored values; [set] may reject.
    - the three executors are opaque: an environment gives, for a payload
      and the position of the call inside the drain, whether the promise
      resolves or rejects (and with which [error.message]).
    - an [async] function is a state-and-exception computation; a second
      model ([Task], [resume]) cuts [syncNow] at its [await]s so that other
      calls can be interleaved with a drain in flight; the two are proved
      to agree ([syncNow_is_its_resumptions]).

    Around the engine: [Provider] adds [isOnline] and the two window
    listeners (the online handler calls the [syncNow] of the first render,
    which is [syncNow env []] here); [OfflineIndicator] and the offline
    branch of [handleActivitySubmit] are the two callers modelled.

    Left out: a rejecting [get]; an executor rejecting with a value that
    has no [message] property to read; the Firestore branch of
    [handleActivitySubmit]; the JSX of the editors. *)

From stdpp Require Import gmap strings list.
From Stdlib Require Import ZArith Lia.

Open Scope Z_scope.

(** ** Data model *)

(** [payload: any]: an opaque value that idb-keyval can store; represented
    by its serialisation. *)
Definition Payload : Type := string.

(** [OfflineAction] (declared in ../types, used here through its fields).
    [type] ranges over strings at run time: the switch of [syncNow] compares
    it with three literals.  [retryCount] is read as [action.retryCount || 0],
    so a record without the field is possible; [lastError] is absent until a
    failure and is set to [undefined] by a manual retry. *)
Record OfflineAction : Type := mkAction {
  id : string;
  type : string;
  payload : Payload;
  timestamp : Z;
  retryCount : option Z;
  lastError : option string
}.

Definition QUEUE_KEY : string := "offline_action_queue".
Definition FAILED_QUEUE_KEY : string := "offline_failed_queue".
Definition MAX_RETRIES : Z := 3.

Record SyncProgress : Type := mkProgress { current : nat; total : nat }.

(** The two toasts of [syncNow]; the argument is the number interpolated in
    the message ([newFailed.length], resp. [successCount]). *)
Inductive Toast : Type :=
| ToastError (failed : nat)     (* `${n} itens falharam permanentemente...`, 'error' *)
| ToastSuccess (synced : nat).  (* `${n} itens sincronizados com sucesso!`, 'success' *)

(** The component state, the store behind idb-keyval, and two observation
    logs: the toasts shown and the executor invocations made (oldest first). *)
Record SyncState : Type := mkState {
  queue : list OfflineAction;
  failedQueue : list OfflineAction;
  isSyncing : bool;
  syncProgress : option SyncProgress;
  idb : gmap string (list OfflineAction);
  toasts : list Toast;
  invoked : list OfflineAction
}.

(** Outcome of awaiting an executor: the promise resolves, or rejects with
    an error whose [message] may be missing. *)
Inductive ExecResult : Type :=
| Resolved
| Rejected (message : option string).

(** What the component does not control: the three executors of
    ../utils/offlineActions and whether a write to the store rejects. *)
Record Env : Type := mkEnv {
  executeSubmitActivity : Payload -> nat -> ExecResult;
  executeGradeActivity : Payload -> nat -> ExecResult;
  executePostNotice : Payload -> nat -> ExecResult;
  set_rejects : string -> bool
}.

(** ** Async computations: state plus exceptions *)

Inductive Completion (A : Type) : Type :=
| Returned (a : A)
| Thrown (key : string).   (* a rejected [set(key, _)] that nobody catches *)
Arguments Returned {A} a.
Arguments Thrown {A} key.

Definition Async (A : Type) : Type := SyncState -> Completion A * SyncState.

Definition ret {A} (a : A) : Async A := fun s => (Returned a, s).

Definition bind {A B} (m : Async A) (k : A -> Async B) : Async B :=
  fun s => match m s with
           | (Returned a, s') => k a s'
           | (Thrown e, s') => (Thrown e, s')
           end.

Declare Scope async_scope.
Delimit Scope async_scope with async.
Notation "x <- m ;; k" := (bind m (fun x => k))
  (at level 100, m at next level, right associativity) : async_scope.
Notation "m ;; k" := (bind m (fun _ => k))
  (at level 100, right associativity) : async_scope.
Open Scope async_scope.

(** State setters of [useState]. *)
Definition setQueue (v : list OfflineAction) : Async unit := fun s =>
  (Returned tt, mkState v (failedQueue s) (isSyncing s) (syncProgress s)
                        (idb s) (toasts s) (invoked s)).
Definition setFailedQueue (v : list OfflineAction) : Async unit := fun s =>
  (Returned tt, mkState (queue s) v (isSyncing s) (syncProgress s)
                        (idb s) (toasts s) (invoked s)).
Definition setIsSyncing (v : bool) : Async unit := fun s =>
  (Returned tt, mkState (queue s) (failedQueue s) v (syncProgress s)
                        (idb s) (toasts s) (invoked s)).
Definition setSyncProgress (v : option SyncProgress) : Async unit := fun s =>
  (Returned tt, mkState (queue s) (failedQueue s) (isSyncing s) v
                        (idb s) (toasts s) (invoked s)).
Definition addToast (t : Toast) : Async unit := fun s =>
  (Returned tt, mkState (queue s) (failedQueue s) (isSyncing s) (syncProgress s)
                        (idb s) (toasts s ++ [t]) (invoked s)).

(** idb-keyval: [get] yields [undefined] for a missing key; [set] replaces
    the whole value under the key, or rejects and leaves the store as is. *)
Definition idb_get (key : string) : Async (option (list OfflineAction)) :=
  fun s => (Returned (idb s !! key), s).

Definition idb_set (env : Env) (key : string) (v : list OfflineAction) : Async unit :=
  fun s =>
    if set_rejects env key then (Thrown key, s)
    else (Returned tt, mkState (queue s) (failedQueue s) (isSyncing s) (syncProgress s)
                               (<[key := v]> (idb s)) (toasts s) (invoked s)).

(** Awaiting one executor: the call is logged, the environment settles it. *)
Definition await_executor (exec : Payload -> nat -> ExecResult)
    (index : nat) (action : OfflineAction) : Async ExecResult :=
  fun s =>
    (Returned (exec (payload action) index),
     mkState (queue s) (failedQueue s) (isSyncing s) (syncProgress s)
             (idb s) (toasts s) (invoked s ++ [action])).

(** ** The operations *)

(** [addOfflineAction]: [uuid] is the value of [crypto.randomUUID()], [now]
    that of [Date.now()]; [queue_c] is the [queue] of the render that built
    the callback ([useCallback(..., [queue])]). *)
Definition newAction (uuid : string) (ty : string) (p : Payload) (now : Z) : OfflineAction :=
  {| id := uuid; type := ty; payload := p; timestamp := now;
     retryCount := Some 0; lastError := None |}.

Definition addOfflineAction (env : Env) (queue_c : list OfflineAction)
    (uuid : string) (now : Z) (ty : string) (p : Payload) : Async unit :=
  let updatedQueue := queue_c ++ [newAction uuid ty p now] in
  setQueue updatedQueue ;;
  idb_set env QUEUE_KEY updatedQueue.

(** The [switch (action.type)] of the loop body: which executor a tag
    selects.  The switch has three cases and no default. *)
Definition executor_for (env : Env) (ty : string) : option (Payload -> nat -> ExecResult) :=
  if String.eqb ty "SUBMIT_ACTIVITY" then Some (executeSubmitActivity env)
  else if String.eqb ty "GRADE_ACTIVITY" then Some (executeGradeActivity env)
  else if String.eqb ty "POST_NOTICE" then Some (executePostNotice env)
  else None.

(** The [try] block: the selected executor is awaited; for any other tag no
    executor runs and the block completes normally. *)
Definition try_switch (env : Env) (index : nat) (action : OfflineAction) : Async ExecResult :=
  match executor_for env (type action) with
  | Some exec => await_executor exec index action
  | None => ret Resolved
  end.

(** The three locals the loop of [syncNow] updates. *)
Record LoopVars : Type := mkVars {
  successCount : nat;
  remainingQueue : list OfflineAction;
  newFailed : list OfflineAction
}.

(** The [catch] branch: the retry logic. *)
Definition on_rejected (action : OfflineAction) (message : option string)
    (v : LoopVars) : LoopVars :=
  let currentRetries := default 0 (retryCount action) in
  if currentRetries <? MAX_RETRIES then
    let updatedAction :=
      {| id := id action; type := type action; payload := payload action;
         timestamp := timestamp action;
         retryCount := Some (currentRetries + 1); lastError := message |} in
    mkVars (successCount v) (remainingQueue v ++ [updatedAction]) (newFailed v)
  else
    let failedAction :=
      {| id := id action; type := type action; payload := payload action;
         timestamp := timestamp action;
         retryCount := retryCount action; lastError := message |} in
    mkVars (successCount v) (remainingQueue v) (newFailed v ++ [failedAction]).

Definition on_resolved (v : LoopVars) : LoopVars :=
  mkVars (S (successCount v)) (remainingQueue v) (newFailed v).

Definition settle (action : OfflineAction) (r : ExecResult) (v : LoopVars) : LoopVars :=
  match r with
  | Resolved => on_resolved v
  | Rejected message => on_rejected action message v
  end.

(** [for (const [index, action] of storedQueue.entries())], from position
    [index] on; [len] is [storedQueue.length]. *)
Fixpoint sync_loop (env : Env) (len : nat) (index : nat)
    (rest : list OfflineAction) (v : LoopVars) : Async LoopVars :=
  match rest with
  | [] => ret v
  | action :: rest' =>
      setSyncProgress (Some (mkProgress (index + 1) len)) ;;
      r <- try_switch env index action ;;
      sync_loop env len (S index) rest' (settle action r v)
  end.

(** [syncNow]; [failedQueue_c] is the [failedQueue] of the render that
    created this closure.  Nothing in the body reads [isSyncing]. *)
Definition syncNow (env : Env) (failedQueue_c : list OfflineAction) : Async unit :=
  storedQueue <- idb_get QUEUE_KEY ;;
  match storedQueue with
  | None => ret tt
  | Some [] => ret tt
  | Some storedQueue =>
      setIsSyncing true ;;
      setSyncProgress (Some (mkProgress 0 (length storedQueue))) ;;
      v <- sync_loop env (length storedQueue) 0 storedQueue (mkVars 0 [] []) ;;
      setQueue (remainingQueue v) ;;
      idb_set env QUEUE_KEY (remainingQueue v) ;;
      match newFailed v with
      | [] => ret tt
      | _ :: _ =>
          let updatedFailedQueue := failedQueue_c ++ newFailed v in
          setFailedQueue updatedFailedQueue ;;
          idb_set env FAILED_QUEUE_KEY updatedFailedQueue ;;
          addToast (ToastError (length (newFailed v)))
      end ;;
      setIsSyncing false ;;
      setSyncProgress None ;;
      if (0 <? successCount v)%nat then addToast (ToastSuccess (successCount v))
      else ret tt
  end.

(** [retryFailedAction], up to and including the two writes.  The closure
    reads [queue_c] and [failedQueue_c]; the result tells whether the body
    went on to call [syncNow()] (not awaited), which it does with the
    [syncNow] of the same render, that is with the same [failedQueue_c]. *)
Definition retryFailedAction (env : Env) (queue_c failedQueue_c : list OfflineAction)
    (actionId : string) : Async bool :=
  match List.find (fun a => String.eqb (id a) actionId) failedQueue_c with
  | None => ret false
  | Some actionToRetry =>
      let resetAction :=
        {| id := id actionToRetry; type := type actionToRetry;
           payload := payload actionToRetry; timestamp := timestamp actionToRetry;
           retryCount := Some 0; lastError := None |} in
      let newQueue := queue_c ++ [resetAction] in
      let newFailedQueue := filter (fun a => id a <> actionId) failedQueue_c in
      setQueue newQueue ;;
      setFailedQueue newFailedQueue ;;
      idb_set env QUEUE_KEY newQueue ;;
      idb_set env FAILED_QUEUE_KEY newFailedQueue ;;
      ret true
  end.

(** [retryFailedAction] followed by the drain it starts, run to its end
    with nothing interleaved. *)
Definition retryFailedAction_and_sync (env : Env)
    (queue_c failedQueue_c : list OfflineAction) (actionId : string) : Async unit :=
  started <- retryFailedAction env queue_c failedQueue_c actionId ;;
  if (started : bool) then syncNow env failedQueue_c else ret tt.

Definition discardFailedAction (env : Env) (failedQueue_c : list OfflineAction)
    (actionId : string) : Async unit :=
  let newFailedQueue := filter (fun a => id a <> actionId) failedQueue_c in
  setFailedQueue newFailedQueue ;;
  idb_set env FAILED_QUEUE_KEY newFailedQueue.

(** [loadQueues] of the mount effect. *)
Definition loadQueues : Async unit :=
  storedQueue <- idb_get QUEUE_KEY ;;
  match storedQueue with Some q => setQueue q | None => ret tt end ;;
  storedFailed <- idb_get FAILED_QUEUE_KEY ;;
  match storedFailed with Some q => setFailedQueue q | None => ret tt end.

(** The component as first rendered, over a given store. *)
Definition mount (store : gmap string (list OfflineAction)) : SyncState :=
  mkState [] [] false None store [] [].

(** ** [syncNow] cut at its awaits

    A drain in flight is a [Task]: the await it is suspended at, with the
    locals it will need.  [resume] runs it from that await to the next one.
    A write is issued when [set] is called; its rejection is seen when the
    task resumes. *)
Inductive Task : Type :=
| AwaitGet (failedQueue_c : list OfflineAction)
| AwaitExecutor (failedQueue_c : list OfflineAction) (len index : nat)
    (action : OfflineAction) (rest : list OfflineAction) (v : LoopVars)
| AwaitSetQueue (failedQueue_c : list OfflineAction) (v : LoopVars)
| AwaitSetFailed (v : LoopVars)
| Settled (c : Completion unit).

Definition after {A} (m : Async A) (s : SyncState) : SyncState := snd (m s).

(** From the head of the loop at position [index] to the next await. *)
Fixpoint advance (env : Env) (failedQueue_c : list OfflineAction) (len index : nat)
    (rest : list OfflineAction) (v : LoopVars) (s : SyncState) : Task * SyncState :=
  match rest with
  | [] =>
      let s1 := after (setQueue (remainingQueue v)) s in
      (AwaitSetQueue failedQueue_c v, after (idb_set env QUEUE_KEY (remainingQueue v)) s1)
  | action :: rest' =>
      let s1 := after (setSyncProgress (Some (mkProgress (index + 1) len))) s in
      match executor_for env (type action) with
      | Some exec =>
          (AwaitExecutor failedQueue_c len index action rest' v,
           snd (await_executor exec index action s1))
      | None => advance env failedQueue_c len (S index) rest' (on_resolved v) s1
      end
  end.

(** The tail of [syncNow], after the dead-letter block. *)
Definition finish (v : LoopVars) (s : SyncState) : Task * SyncState :=
  let s1 := after (setIsSyncing false) s in
  let s2 := after (setSyncProgress None) s1 in
  (Settled (Returned tt),
   if (0 <? successCount v)%nat then after (addToast (ToastSuccess (successCount v))) s2
   else s2).

Definition resume (env : Env) (t : Task) (s : SyncState) : Task * SyncState :=
  match t with
  | AwaitGet failedQueue_c =>
      match idb s !! QUEUE_KEY with
      | None => (Settled (Returned tt), s)
      | Some [] => (Settled (Returned tt), s)
      | Some storedQueue =>
          let s1 := after (setIsSyncing true) s in
          let s2 := after (setSyncProgress (Some (mkProgress 0 (length storedQueue)))) s1 in
          advance env failedQueue_c (length storedQueue) 0 storedQueue (mkVars 0 [] []) s2
      end
  | AwaitExecutor failedQueue_c len index action rest v =>
      let r := match executor_for env (type action) with
               | Some exec => exec (payload action) index
               | None => Resolved
               end in
      advance env failedQueue_c len (S index) rest (settle action r v) s
  | AwaitSetQueue failedQueue_c v =>
      if set_rejects env QUEUE_KEY then (Settled (Thrown QUEUE_KEY), s)
      else match newFailed v with
           | [] => finish v s
           | _ :: _ =>
               let updatedFailedQueue := failedQueue_c ++ newFailed v in
               let s1 := after (setFailedQueue updatedFailedQueue) s in
               (AwaitSetFailed v, after (idb_set env FAILED_QUEUE_KEY updatedFailedQueue) s1)
           end
  | AwaitSetFailed v =>
      if set_rejects env FAILED_QUEUE_KEY then (Settled (Thrown FAILED_QUEUE_KEY), s)
      else finish v (after (addToast (ToastError (length (newFailed v)))) s)
  | Settled c => (Settled c, s)
  end.

(** What can happen while a drain is in flight: the drain resumes, or the
    user enqueues an action through the callback of the current render. *)
Inductive Event : Type :=
| Resume
| Enqueue (uuid : string) (now : Z) (ty : string) (p : Payload).

Definition step (env : Env) (e : Event) (ts : Task * SyncState) : Task * SyncState :=
  match e with
  | Resume => resume env (fst ts) (snd ts)
  | Enqueue uuid now ty p =>
      (fst ts, after (addOfflineAction env (queue (snd ts)) uuid now ty p) (snd ts))
  end.

Definition interleave (env : Env) (events : list Event) (ts : Task * SyncState)
    : Task * SyncState :=
  fold_left (fun acc e => step env e acc) events ts.

(** ** The loop in closed form *)

(** How the awaited call for [action] at position [index] ends. *)
Definition outcome (env : Env) (index : nat) (action : OfflineAction) : ExecResult :=
  match executor_for env (type action) with
  | Some exec => exec (payload action) index
  | None => Resolved
  end.

Fixpoint loop_vars (env : Env) (index : nat) (rest : list OfflineAction)
    (v : LoopVars) : LoopVars :=
  match rest with
  | [] => v
  | action :: rest' => loop_vars env (S index) rest' (settle action (outcome env index action) v)
  end.

Definition has_executor (env : Env) (action : OfflineAction) : bool :=
  match executor_for env (type action) with Some _ => true | None => false end.

(** What one settled call adds to each of the three locals. *)
Definition bump (action : OfflineAction) (message : option string) : OfflineAction :=
  {| id := id action; type := type action; payload := payload action;
     timestamp := timestamp action;
     retryCount := Some (default 0 (retryCount action) + 1); lastError := message |}.

Definition bury (action : OfflineAction) (message : option string) : OfflineAction :=
  {| id := id action; type := type action; payload := payload action;
     timestamp := timestamp action;
     retryCount := retryCount action; lastError := message |}.

Definition kept (action : OfflineAction) (r : ExecResult) : list OfflineAction :=
  match r with
  | Resolved => []
  | Rejected message =>
      if default 0 (retryCount action) <? MAX_RETRIES then [bump action message] else []
  end.

Definition dead (action : OfflineAction) (r : ExecResult) : list OfflineAction :=
  match r with
  | Resolved => []
  | Rejected message =>
      if default 0 (retryCount action) <? MAX_RETRIES then [] else [bury action message]
  end.

Definition synced (r : ExecResult) : nat :=
  match r with Resolved => 1%nat | Rejected _ => 0%nat end.

Fixpoint kept_all (env : Env) (index : nat) (rest : list OfflineAction) : list OfflineAction :=
  match rest with
  | [] => []
  | action :: rest' => kept action (outcome env index action) ++ kept_all env (S index) rest'
  end.

Fixpoint dead_all (env : Env) (index : nat) (rest : list OfflineAction) : list OfflineAction :=
  match rest with
  | [] => []
  | action :: rest' => dead action (outcome env index action) ++ dead_all env (S index) rest'
  end.

Fixpoint synced_all (env : Env) (index : nat) (rest : list OfflineAction) : nat :=
  match rest with
  | [] => 0%nat
  | action :: rest' => (synced (outcome env index action) + synced_all env (S index) rest')%nat
  end.

(** The locals when the loop over a whole batch has ended. *)
Definition batch_vars (env : Env) (batch : list OfflineAction) : LoopVars :=
  loop_vars env 0 batch (mkVars 0 [] []).

(** The state a drain of [batch] ends in when no write rejects. *)
Definition drained (env : Env) (failedQueue_c batch : list OfflineAction)
    (s : SyncState) : SyncState :=
  let v := batch_vars env batch in
  let updatedFailedQueue := failedQueue_c ++ newFailed v in
  mkState (remainingQueue v)
          (match newFailed v with [] => failedQueue s | _ :: _ => updatedFailedQueue end)
          false None
          (match newFailed v with
           | [] => <[QUEUE_KEY := remainingQueue v]> (idb s)
           | _ :: _ => <[FAILED_QUEUE_KEY := updatedFailedQueue]>
                         (<[QUEUE_KEY := remainingQueue v]> (idb s))
           end)
          (toasts s
             ++ match newFailed v with [] => [] | _ :: _ => [ToastError (length (newFailed v))] end
             ++ (if (0 <? successCount v)%nat then [ToastSuccess (successCount v)] else []))
          (invoked s ++ List.filter (has_executor env) batch).

(** The state when the loop has ended and nothing was written back yet. *)
Definition looped (env : Env) (batch : list OfflineAction) (s : SyncState) : SyncState :=
  mkState (queue s) (failedQueue s) true
          (Some (mkProgress (length batch) (length batch)))
          (idb s) (toasts s) (invoked s ++ List.filter (has_executor env) batch).

(** The engine seen by a caller between operations: every call goes through
    the closures of the current render. *)
Definition enqueue (env : Env) (uuid : string) (now : Z) (ty : string) (p : Payload)
    (s : SyncState) : SyncState :=
  after (addOfflineAction env (queue s) uuid now ty p) s.

Definition drain (env : Env) (s : SyncState) : SyncState :=
  after (syncNow env (failedQueue s)) s.

Definition retry (env : Env) (actionId : string) (s : SyncState) : SyncState :=
  after (retryFailedAction_and_sync env (queue s) (failedQueue s) actionId) s.

Definition discard (env : Env) (actionId : string) (s : SyncState) : SyncState :=
  after (discardFailedAction env (failedQueue s) actionId) s.

Fixpoint drains (envs : list Env) (s : SyncState) : SyncState :=
  match envs with
  | [] => s
  | env :: envs' => drains envs' (drain env s)
  end.

(** Ids of the actions of a queue, in order. *)
Definition ids (l : list OfflineAction) : list string := id <$> l.

(** The invariant of the data model: no id occurs twice in the two queues
    taken together. *)
Definition unique_ids (s : SyncState) : Prop := NoDup (ids (queue s ++ failedQueue s)).

(** The [resetAction] of [retryFailedAction]. *)
Definition reset (a : OfflineAction) : OfflineAction :=
  {| id := id a; type := type a; payload := payload a; timestamp := timestamp a;
     retryCount := Some 0; lastError := None |}.

(** The part of [syncNow] that follows the loop. *)
Definition after_loop (env : Env) (failedQueue_c : list OfflineAction) (v : LoopVars)
    : Async unit :=
  setQueue (remainingQueue v) ;;
  idb_set env QUEUE_KEY (remainingQueue v) ;;
  match newFailed v with
  | [] => ret tt
  | _ :: _ =>
      let updatedFailedQueue := failedQueue_c ++ newFailed v in
      setFailedQueue updatedFailedQueue ;;
      idb_set env FAILED_QUEUE_KEY updatedFailedQueue ;;
      addToast (ToastError (length (newFailed v)))
  end ;;
  setIsSyncing false ;;
  setSyncProgress None ;;
  if (0 <? successCount v)%nat then addToast (ToastSuccess (successCount v))
  else ret tt.

(** ** Vocabulary of the retry policy *)

(** The executor of [a] rejects whenever it is called. *)
Definition rejects (env : Env) (a : OfflineAction) : Prop :=
  forall index, exists message, outcome env index a = Rejected message.

(** The store accepts the writes of both queues. *)
Definition writable (env : Env) : Prop :=
  set_rejects env QUEUE_KEY = false /\ set_rejects env FAILED_QUEUE_KEY = false.

(** [x] is the action [a], up to the retry bookkeeping. *)
Definition same_action (x a : OfflineAction) : Prop :=
  id x = id a /\ type x = type a /\ payload x = payload a /\ timestamp x = timestamp a.

(** [a] is pending, and only pending, in a state whose store mirrors the
    pending queue. *)
Definition pending_only (s : SyncState) (a : OfflineAction) : Prop :=
  idb s !! QUEUE_KEY = Some (queue s) /\ a ∈ queue s
  /\ NoDup (ids (queue s)) /\ id a ∉ ids (failedQueue s).

(** ** A drain in flight *)

(** What is known of a drain that took [batch] as its snapshot when the log
    of invocations was [log0]: where it stands in the batch, that its locals
    are those of the loop over the part already settled, and that it has
    invoked executors for exactly that part (and the action it waits for). *)
Definition in_flight (env : Env) (batch log0 : list OfflineAction)
    (ts : Task * SyncState) : Prop :=
  match fst ts with
  | AwaitGet _ => False
  | AwaitExecutor _ len index action rest v =>
      exists done,
        batch = done ++ action :: rest /\ index = length done /\ len = length batch
        /\ v = loop_vars env 0 done (mkVars 0 [] [])
        /\ invoked (snd ts) = log0 ++ List.filter (has_executor env) (done ++ [action])
  | AwaitSetQueue _ v | AwaitSetFailed v =>
      v = batch_vars env batch
      /\ invoked (snd ts) = log0 ++ List.filter (has_executor env) batch
  | Settled _ => invoked (snd ts) = log0 ++ List.filter (has_executor env) batch
  end.

(** Once the drain is past its loop, and as long as nothing else touches
    the queue, pending is [pending] in memory and in the store. *)
Definition written_back (pending : list OfflineAction) (ts : Task * SyncState) : Prop :=
  match fst ts with
  | AwaitGet _ => True
  | AwaitExecutor _ _ _ _ _ _ => True
  | _ => queue (snd ts) = pending /\ idb (snd ts) !! QUEUE_KEY = Some pending
  end.

(** Number of resumptions a task still needs, at most. *)
Definition awaits_left (t : Task) : nat :=
  match t with
  | AwaitGet _ => 0
  | AwaitExecutor _ _ _ _ rest _ => length rest + 3
  | AwaitSetQueue _ _ => 2
  | AwaitSetFailed _ => 1
  | Settled _ => 0
  end.

(** ** Concrete scenarios *)

(** No network: every executor rejects; the store accepts writes. *)
Definition env_offline : Env :=
  mkEnv (fun _ _ => Rejected (Some "Network Error"))
        (fun _ _ => Rejected (Some "Network Error"))
        (fun _ _ => Rejected (Some "Network Error"))
        (fun _ => false).

(** The notice endpoint is down; submissions and grades go through. *)
Definition env_notices_down : Env :=
  mkEnv (fun _ _ => Resolved) (fun _ _ => Resolved)
        (fun _ _ => Rejected (Some "permission-denied"))
        (fun _ => false).

(** A store whose quota is exhausted: writes reject. *)
Definition env_store_full : Env :=
  mkEnv (fun _ _ => Resolved) (fun _ _ => Resolved) (fun _ _ => Resolved)
        (fun _ => true).

(** One submission enqueued on a fresh component. *)
Definition one_pending : SyncState :=
  enqueue env_offline "a-1" 1000 "SUBMIT_ACTIVITY" "activity 1" (mount ∅).

(** One action whose tag is none of the three of the switch. *)
Definition one_unmatched : SyncState :=
  enqueue env_offline "x-1" 1000 "DELETE_NOTICE" "notice 7" (mount ∅).

(** "a-1" after four failed drains. *)
Definition one_dead : SyncState :=
  drains [env_offline; env_offline; env_offline; env_offline] one_pending.

(** A reachable state with one dead-lettered action and one pending action
    at the retry ceiling: "a-1" has failed four drains; "b-2", enqueued
    afterwards, has failed three. *)
Definition before_retry : SyncState :=
  drains [env_offline; env_offline; env_offline]
    (enqueue env_offline "b-2" 2000 "POST_NOTICE" "notice 9" one_dead).


(** The drain of [one_pending] with an enqueue arriving while it awaits the
    executor: the state when the enqueue has returned, and the state when
    the drain has ended. *)
Definition enqueued_mid_drain : Task * SyncState :=
  interleave env_offline
    [Resume; Enqueue "b-2" 2000 "POST_NOTICE" "notice 9"] (AwaitGet [], one_pending).

Definition drain_ended : Task * SyncState :=
  interleave env_offline [Resume; Resume] enqueued_mid_drain.

(** Network up: every executor resolves; the store accepts writes. *)
Definition env_online : Env :=
  mkEnv (fun _ _ => Resolved) (fun _ _ => Resolved) (fun _ _ => Resolved)
        (fun _ => false).

(** ** Runs of the engine *)

(** The component with its connectivity flag, and the two window
    listeners.  They are registered by an effect with an empty dependency
    list, so [handleOnline] calls the [syncNow] of the first render, whose
    [failedQueue] is the initial state [[]]; the call is not awaited. *)
Record Provider : Type := mkProvider { sync : SyncState; isOnline : bool }.

Definition handleOnline (env : Env) (p : Provider) : Provider :=
  mkProvider (after (syncNow env []) (sync p)) true.

Definition handleOffline (p : Provider) : Provider := mkProvider (sync p) false.

(** What can be asked of the engine, one call at a time, each call made
    through the closures of the current render (the online handler apart). *)
Inductive Op : Type :=
| OpEnqueue (uuid : string) (now : Z) (ty : string) (p : Payload)
| OpDrain
| OpRetry (actionId : string)
| OpDiscard (actionId : string)
| OpOnline.

Definition apply_op (env : Env) (o : Op) (s : SyncState) : SyncState :=
  match o with
  | OpEnqueue uuid now ty p => enqueue env uuid now ty p s
  | OpDrain => drain env s
  | OpRetry actionId => retry env actionId s
  | OpDiscard actionId => discard env actionId s
  | OpOnline => sync (handleOnline env (mkProvider s false))
  end.

(** A run: each call with the environment it meets.  The calls do not
    overlap: each one, and the drain it starts, has ended before the next
    is made. *)
Fixpoint run_ops (steps : list (Env * Op)) (s : SyncState) : SyncState :=
  match steps with
  | [] => s
  | (env, o) :: steps' => run_ops steps' (apply_op env o s)
  end.


(** The store holds what memory holds (a key never written counts as the
    empty queue, which is what [loadQueues] makes of it). *)
Definition mirrored (s : SyncState) : Prop :=
  default [] (idb s !! QUEUE_KEY) = queue s
  /\ default [] (idb s !! FAILED_QUEUE_KEY) = failedQueue s.

(** The retry counts the engine produces: between 0 and the ceiling while
    pending, the ceiling once dead-lettered. *)
Definition counts_in_range (s : SyncState) : Prop :=
  Forall (fun a => exists c, retryCount a = Some c /\ 0 <= c <= MAX_RETRIES) (queue s)
  /\ Forall (fun a => retryCount a = Some MAX_RETRIES) (failedQueue s).


(** What the indicator can read of a drain in flight over a batch of [n]
    actions. *)
Definition progress_shown (n : nat) (ts : Task * SyncState) : Prop :=
  match fst ts with
  | AwaitGet _ => False
  | AwaitExecutor _ len index _ rest _ =>
      len = n /\ (index + 1 + length rest)%nat = n
      /\ isSyncing (snd ts) = true
      /\ syncProgress (snd ts) = Some (mkProgress (index + 1) n)
  | AwaitSetQueue _ _ | AwaitSetFailed _ | Settled (Thrown _) =>
      isSyncing (snd ts) = true /\ syncProgress (snd ts) = Some (mkProgress n n)
  | Settled (Returned _) =>
      isSyncing (snd ts) = false /\ syncProgress (snd ts) = None
  end.

(** ** Callers of the engine *)

(** [OfflineIndicator] (src/unnamed/part_002): which banner it returns, with
    the values the banner shows.  [modalOpen] is the [isOpen] prop of the
    [Modal] that holds the retry and discard buttons; the width of the
    progress bar, a floating-point percentage, is left out. *)
Inductive Banner : Type :=
| FailureAlert (failedCount : nat) (modalOpen : bool)
| OfflineNotice (pendingCount : nat)
| SyncingNotice (current total : nat) (sending : bool)
| BackOnlineNotice
| NoBanner.

Definition OfflineIndicator (failedCount pendingCount : nat) (isOnline isSyncing : bool)
    (syncProgress : option SyncProgress) (showFailedModal showBackOnline : bool) : Banner :=
  if (0 <? failedCount)%nat && negb showFailedModal then
    FailureAlert failedCount showFailedModal
  else if negb isOnline then OfflineNotice pendingCount
  else if isSyncing then
    (* syncProgress?.current || 0 *)
    let current := match syncProgress with Some p => current p | None => 0%nat end in
    (* syncProgress?.total || pendingCount || 1 *)
    let total :=
      match syncProgress with
      | Some (mkProgress _ (S t)) => S t
      | _ => match pendingCount with 0%nat => 1%nat | S c => S c end
      end in
    SyncingNotice current total (match syncProgress with Some _ => true | None => false end)
  else if showBackOnline then BackOnlineNotice
  else NoBanner.

(** [handleActivitySubmit] (src/hooks/useStudentContent.ts), its guard and
    its offline branch.  [snap] is what [getDoc] gives for the activity;
    [serialize] builds the stored form of the payload object
    [{activityId, content, user: {id, name}, activityData}]. *)
Record User : Type := mkUser { user_id : string; user_name : string }.

Inductive DocSnap : Type :=
| DocThrows
| DocMissing
| DocData (data : string).

Inductive SubmitOutcome : Type :=
| NoUser                (* [if (!user) return] *)
| SavedOffline          (* toast "Sem conexao. Salvo para envio automatico.", 'info' *)
| OfflineSaveError      (* toast "Erro ao salvar offline.", 'error' *)
| OnlineFlow.           (* the Firestore branch, not modelled *)

Definition handleActivitySubmit
    (serialize : string -> string -> User -> string -> Payload)
    (env : Env) (queue_c : list OfflineAction) (user : option User) (onLine : bool)
    (snap : DocSnap) (uuid : string) (now : Z) (activityId content : string)
    (s : SyncState) : SubmitOutcome * SyncState :=
  match user with
  | None => (NoUser, s)
  | Some u =>
      if negb onLine then
        match snap with
        | DocThrows => (OfflineSaveError, s)
        | _ =>
            let activityData := match snap with DocData d => d | _ => "{}" end in
            match addOfflineAction env queue_c uuid now "SUBMIT_ACTIVITY"
                    (serialize activityId content u activityData) s with
            | (Returned _, s') => (SavedOffline, s')
            | (Thrown _, s') => (OfflineSaveError, s')
            end
        end
      else (OnlineFlow, s)
  end.


Definition sample_run_with_retry : list (Env * Op) :=
  [(env_offline, OpEnqueue "a-1" 1000 "SUBMIT_ACTIVITY" "activity 1");
   (env_offline, OpDrain); (env_offline, OpDrain);
   (env_offline, OpDrain); (env_offline, OpDrain);
   (env_offline, OpRetry "a-1");
   (env_online, OpOnline)].

(** The three [case] labels of the switch of [syncNow], read off the source
    text: whether the tag of an action is one of them. *)
Definition has_case (action : OfflineAction) : bool :=
  String.eqb (type action) "SUBMIT_ACTIVITY"
  || String.eqb (type action) "GRADE_ACTIVITY"
  || String.eqb (type action) "POST_NOTICE".



(** Three drains started by the online handler (closure [[]]) that overlap.
    "a-1" is pending with two failures.  The first and the second drain
    each read it from the store; the first ends (third failure, written
    back with [retryCount] 3); a third drain then starts, reads that,
    dead-letters it and ends; last, the second drain resumes with its own
    older snapshot and writes "a-1" back to pending. *)
Definition overlapping_online_drains : SyncState :=
  let start := drains [env_offline; env_offline] one_pending in
  let first_reads := resume env_offline (AwaitGet []) start in
  let second_reads := resume env_offline (AwaitGet []) (snd first_reads) in
  let first_writes := resume env_offline (fst first_reads) (snd second_reads) in
  let first_ends := resume env_offline (fst first_writes) (snd first_writes) in
  let third_reads := resume env_offline (AwaitGet []) (snd first_ends) in
  let third_writes := resume env_offline (fst third_reads) (snd third_reads) in
  let third_buries := resume env_offline (fst third_writes) (snd third_writes) in
  let third_ends := resume env_offline (fst third_buries) (snd third_buries) in
  let second_writes := resume env_offline (fst second_reads) (snd third_ends) in
  let second_ends := resume env_offline (fst second_writes) (snd second_writes) in
  snd second_ends.

(** ** Lemmas on the loop *)

Lemma settle_split action r v :
  settle action r v =
  mkVars (successCount v + synced r) (remainingQueue v ++ kept action r)
         (newFailed v ++ dead action r).
Proof.
  destruct v as [n q f], r as [|m]; cbn.
  - unfold on_resolved; cbn. rewrite !app_nil_r. f_equal. lia.
  - unfold on_rejected, bump, bury; cbn.
    destruct (default 0 (retryCount action) <? MAX_RETRIES);
      cbn; rewrite ?app_nil_r; f_equal; lia.
Qed.

Lemma loop_vars_split env rest : forall index v,
  loop_vars env index rest v =
  mkVars (successCount v + synced_all env index rest)
         (remainingQueue v ++ kept_all env index rest)
         (newFailed v ++ dead_all env index rest).
Proof.
  induction rest as [|a rest IH]; intros index v; cbn [loop_vars kept_all dead_all synced_all].
  - destruct v; cbn. rewrite !app_nil_r. f_equal. lia.
  - rewrite IH, settle_split; cbn. rewrite <- !app_assoc. f_equal. lia.
Qed.

Lemma batch_vars_split env batch :
  batch_vars env batch =
  mkVars (synced_all env 0 batch) (kept_all env 0 batch) (dead_all env 0 batch).
Proof. unfold batch_vars. rewrite loop_vars_split. reflexivity. Qed.

Lemma loop_vars_app env l1 l2 : forall index v,
  loop_vars env index (l1 ++ l2) v =
  loop_vars env (index + length l1) l2 (loop_vars env index l1 v).
Proof.
  induction l1 as [|a l1 IH]; intros index v; cbn [loop_vars app length].
  - f_equal. lia.
  - rewrite IH. f_equal. lia.
Qed.

Lemma try_switch_outcome env index action s :
  try_switch env index action s =
  (Returned (outcome env index action),
   mkState (queue s) (failedQueue s) (isSyncing s) (syncProgress s) (idb s) (toasts s)
           (invoked s ++ List.filter (has_executor env) [action])).
Proof.
  unfold try_switch, outcome, has_executor; cbn.
  destruct (executor_for env (type action)); cbn.
  - reflexivity.
  - rewrite app_nil_r. destruct s; reflexivity.
Qed.

(** The loop always ends, by returning the closed form; it leaves the
    queues and the store alone. *)
Lemma sync_loop_closed env len rest : forall index v s,
  sync_loop env len index rest v s =
  (Returned (loop_vars env index rest v),
   mkState (queue s) (failedQueue s) (isSyncing s)
           (match rest with
            | [] => syncProgress s
            | _ :: _ => Some (mkProgress (index + length rest) len)
            end)
           (idb s) (toasts s) (invoked s ++ List.filter (has_executor env) rest)).
Proof.
  induction rest as [|a rest IH]; intros index v s.
  - cbn. rewrite app_nil_r. destruct s; reflexivity.
  - cbn [sync_loop]. unfold bind at 1. cbn [setSyncProgress].
    unfold bind at 1. rewrite try_switch_outcome. rewrite IH.
    cbn [queue failedQueue isSyncing syncProgress idb toasts invoked loop_vars].
    f_equal. f_equal.
    + destruct rest; cbn [length]; do 2 f_equal; lia.
    + rewrite <- app_assoc. f_equal.
      cbn [List.filter]. destruct (has_executor env a); reflexivity.
Qed.

(** ** [syncNow] in closed form *)

Ltac run_async :=
  cbv beta iota zeta delta
    [bind ret setQueue setFailedQueue setIsSyncing setSyncProgress addToast
     idb_set idb_get after];
  cbn [fst snd queue failedQueue isSyncing syncProgress idb toasts invoked
       remainingQueue newFailed successCount].

Lemma syncNow_idle env failedQueue_c s :
  idb s !! QUEUE_KEY = None \/ idb s !! QUEUE_KEY = Some [] ->
  syncNow env failedQueue_c s = (Returned tt, s).
Proof.
  intros [H|H]; unfold syncNow, bind at 1, idb_get; rewrite H; reflexivity.
Qed.

Lemma syncNow_loop env failedQueue_c s batch :
  idb s !! QUEUE_KEY = Some batch -> batch <> [] ->
  syncNow env failedQueue_c s =
  (let v := batch_vars env batch in
   setQueue (remainingQueue v) ;;
   idb_set env QUEUE_KEY (remainingQueue v) ;;
   match newFailed v with
   | [] => ret tt
   | _ :: _ =>
       setFailedQueue (failedQueue_c ++ newFailed v) ;;
       idb_set env FAILED_QUEUE_KEY (failedQueue_c ++ newFailed v) ;;
       addToast (ToastError (length (newFailed v)))
   end ;;
   setIsSyncing false ;;
   setSyncProgress None ;;
   if (0 <? successCount v)%nat then addToast (ToastSuccess (successCount v))
   else ret tt) (looped env batch s).
Proof.
  intros H Hne. unfold syncNow, bind at 1, idb_get. rewrite H.
  destruct batch as [|a batch]; [congruence|].
  unfold bind at 1. cbn [setIsSyncing]. unfold bind at 1. cbn [setSyncProgress].
  unfold bind at 1. rewrite sync_loop_closed.
  cbn [queue failedQueue isSyncing syncProgress idb toasts invoked].
  reflexivity.
Qed.

Lemma syncNow_returns env failedQueue_c s batch :
  idb s !! QUEUE_KEY = Some batch -> batch <> [] ->
  set_rejects env QUEUE_KEY = false ->
  newFailed (batch_vars env batch) = [] \/ set_rejects env FAILED_QUEUE_KEY = false ->
  syncNow env failedQueue_c s = (Returned tt, drained env failedQueue_c batch s).
Proof.
  intros H Hne HQ HF. rewrite (syncNow_loop _ _ _ _ H Hne).
  unfold drained, looped. cbv zeta.
  destruct (batch_vars env batch) as [n q f]. cbn [newFailed] in HF.
  destruct f as [|d ds].
  - run_async. rewrite HQ. run_async.
    destruct (0 <? n)%nat; run_async; rewrite ?app_nil_r; reflexivity.
  - destruct HF as [HF|HF]; [discriminate|].
    run_async. rewrite HQ. run_async. rewrite HF. run_async.
    destruct (0 <? n)%nat; run_async; rewrite <- ?app_assoc, ?app_nil_r; reflexivity.
Qed.

(** A rejected write of the pending queue: the exception leaves [syncNow]
    after [setQueue] and before anything else. *)
Lemma syncNow_throws_queue env failedQueue_c s batch :
  idb s !! QUEUE_KEY = Some batch -> batch <> [] ->
  set_rejects env QUEUE_KEY = true ->
  syncNow env failedQueue_c s =
  (Thrown QUEUE_KEY,
   after (setQueue (remainingQueue (batch_vars env batch))) (looped env batch s)).
Proof.
  intros H Hne HQ. rewrite (syncNow_loop _ _ _ _ H Hne).
  unfold looped. run_async. rewrite HQ. reflexivity.
Qed.

(** A rejected write of the dead-letter queue. *)
Lemma syncNow_throws_failed env failedQueue_c s batch :
  idb s !! QUEUE_KEY = Some batch -> batch <> [] ->
  set_rejects env QUEUE_KEY = false ->
  newFailed (batch_vars env batch) <> [] ->
  set_rejects env FAILED_QUEUE_KEY = true ->
  syncNow env failedQueue_c s =
  (Thrown FAILED_QUEUE_KEY,
   let v := batch_vars env batch in
   mkState (remainingQueue v) (failedQueue_c ++ newFailed v) true
           (Some (mkProgress (length batch) (length batch)))
           (<[QUEUE_KEY := remainingQueue v]> (idb s)) (toasts s)
           (invoked s ++ List.filter (has_executor env) batch)).
Proof.
  intros H Hne HQ Hd HF. rewrite (syncNow_loop _ _ _ _ H Hne).
  unfold looped. cbv zeta.
  destruct (batch_vars env batch) as [n q f]. cbn [newFailed] in Hd.
  destruct f as [|d ds]; [congruence|].
  run_async. rewrite HQ. run_async. rewrite HF. reflexivity.
Qed.

(** ** Enqueue *)

Lemma ids_app l1 l2 : ids (l1 ++ l2) = ids l1 ++ ids l2.
Proof. unfold ids. apply fmap_app. Qed.

(** What [addOfflineAction] does when it is called through the callback of
    the current render (the captured queue is the pending queue of the
    moment) and the write is accepted: it builds an action with the id
    drawn from [crypto.randomUUID()] and [retryCount = 0], puts it at the
    end of the pending queue and writes the whole pending queue to the store
    before it returns; the pending count grows by exactly one and the
    dead-letter queue, in memory and in the store, is untouched.  When the
    drawn id is fresh, ids stay unique over both queues. *)
Theorem addOfflineAction_appends_and_persists env s uuid now ty p :
  set_rejects env QUEUE_KEY = false ->
  let a := newAction uuid ty p now in
  let s' := enqueue env uuid now ty p s in
  addOfflineAction env (queue s) uuid now ty p s = (Returned tt, s')
  /\ (id a = uuid /\ type a = ty /\ payload a = p /\ timestamp a = now
      /\ retryCount a = Some 0 /\ lastError a = None)
  /\ queue s' = queue s ++ [a]
  /\ idb s' !! QUEUE_KEY = Some (queue s ++ [a])
  /\ length (queue s') = S (length (queue s))
  /\ failedQueue s' = failedQueue s
  /\ idb s' !! FAILED_QUEUE_KEY = idb s !! FAILED_QUEUE_KEY
  /\ (uuid ∉ ids (queue s ++ failedQueue s) -> unique_ids s -> unique_ids s').
Proof.
  intros HQ a s'. subst s'. unfold enqueue, addOfflineAction. run_async.
  rewrite HQ. run_async. fold a.
  repeat split.
  - apply lookup_insert_eq.
  - rewrite length_app. cbn. lia.
  - apply lookup_insert_ne. discriminate.
  - unfold unique_ids. cbn [queue failedQueue]. rewrite !ids_app. cbn.
    intros Hfresh Hnd. rewrite <- app_assoc. cbn.
    rewrite <- Permutation_middle. apply NoDup_cons. split; assumption.
Qed.

(** C9. [addOfflineAction] appends to the pending queue captured by its
    callback ([useCallback(..., [queue])], [[...queue, newAction]]), which
    is the pending queue of the moment only if the component has rendered
    again since the last change.  On the freshly mounted component, a first
    call enqueues "a-1" and returns with one pending action, stored.  A
    second call made through the same callback (captured queue still [[]])
    enqueues "b-2" and returns: the pending queue, in memory and in the
    store, is then ["b-2"] alone.  The pending count has not grown by one (it
    is still 1) and "a-1", acknowledged by the first call, is gone.  The
    same second call through the callback of the current render gives
    ["a-1"; "b-2"]. *)
Theorem enqueue_through_stale_callback_drops_an_action :
  let s1 := after (addOfflineAction env_offline [] "a-1" 1000 "SUBMIT_ACTIVITY"
                     "activity 1") (mount ∅) in
  let s2 := after (addOfflineAction env_offline [] "b-2" 2000 "POST_NOTICE"
                     "notice 9") s1 in
  queue (mount ∅) = []
  /\ addOfflineAction env_offline [] "a-1" 1000 "SUBMIT_ACTIVITY" "activity 1" (mount ∅)
     = (Returned tt, s1)
  /\ ids (queue s1) = ["a-1"]
  /\ ids <$> idb s1 !! QUEUE_KEY = Some ["a-1"]
  /\ addOfflineAction env_offline [] "b-2" 2000 "POST_NOTICE" "notice 9" s1
     = (Returned tt, s2)
  /\ length (queue s2) = length (queue s1)
  /\ ids (queue s2) = ["b-2"]
  /\ ids <$> idb s2 !! QUEUE_KEY = Some ["b-2"]
  /\ ids (queue (enqueue env_offline "b-2" 2000 "POST_NOTICE" "notice 9" s1))
     = ["a-1"; "b-2"].
Proof.
  cbv zeta. split; [reflexivity|].
  split; [vm_compute; reflexivity|].
  do 2 (split; [vm_compute; reflexivity|]).
  split; [vm_compute; reflexivity|].
  do 3 (split; [vm_compute; reflexivity|]).
  vm_compute. reflexivity.
Qed.

(** ** Manual retry *)

Lemma find_by_id_present (l : list OfflineAction) actionId :
  actionId ∈ ids l ->
  exists a, List.find (fun a => String.eqb (id a) actionId) l = Some a
            /\ a ∈ l /\ id a = actionId.
Proof.
  induction l as [|x l IH]; cbn; intros Hin.
  - inversion Hin.
  - destruct (String.eqb (id x) actionId) eqn:E.
    + exists x. apply String.eqb_eq in E. split; [reflexivity|]. split; [left|exact E].
    + apply String.eqb_neq in E. apply elem_of_cons in Hin as [Hin|Hin]; [congruence|].
      destruct (IH Hin) as (a & Hf & Ha & Hid).
      exists a. split; [exact Hf|]. split; [right; exact Ha|exact Hid].
Qed.

Lemma find_by_id_absent (l : list OfflineAction) actionId :
  actionId ∉ ids l ->
  List.find (fun a => String.eqb (id a) actionId) l = None.
Proof.
  induction l as [|x l IH]; cbn; intros Hin; [reflexivity|].
  apply not_elem_of_cons in Hin as [Hne Hin].
  destruct (String.eqb (id x) actionId) eqn:E.
  - apply String.eqb_eq in E. congruence.
  - apply IH, Hin.
Qed.

Lemma filter_drops_id (l : list OfflineAction) actionId :
  actionId ∉ ids (filter (fun a => id a <> actionId) l).
Proof.
  unfold ids. intros Hin. apply list_elem_of_fmap in Hin as (a & Hid & Ha).
  apply list_elem_of_filter in Ha as [Hne _]. congruence.
Qed.

(** C6. For an id present in the dead-letter queue, [retryFailedAction]
    (called through the closure of the current render, no write rejecting)
    takes the entry with that id out of the dead-letter queue, puts it at
    the end of the pending queue with [retryCount] 0 and no [lastError],
    and writes both queues to the store; for an id that is absent it
    changes nothing and starts no drain. *)
Theorem retryFailedAction_moves_to_pending env s actionId :
  set_rejects env QUEUE_KEY = false ->
  set_rejects env FAILED_QUEUE_KEY = false ->
  (actionId ∈ ids (failedQueue s) ->
   exists a s',
     a ∈ failedQueue s /\ id a = actionId
     /\ retryFailedAction env (queue s) (failedQueue s) actionId s = (Returned true, s')
     /\ queue s' = queue s ++ [reset a]
     /\ failedQueue s' = filter (fun x => id x <> actionId) (failedQueue s)
     /\ (actionId ∉ ids (failedQueue s'))
     /\ retryCount (reset a) = Some 0 /\ lastError (reset a) = None
     /\ id (reset a) = actionId /\ type (reset a) = type a
     /\ payload (reset a) = payload a /\ timestamp (reset a) = timestamp a
     /\ idb s' !! QUEUE_KEY = Some (queue s')
     /\ idb s' !! FAILED_QUEUE_KEY = Some (failedQueue s')
     /\ isSyncing s' = isSyncing s /\ syncProgress s' = syncProgress s
     /\ toasts s' = toasts s /\ invoked s' = invoked s)
  /\ (actionId ∉ ids (failedQueue s) ->
      retryFailedAction env (queue s) (failedQueue s) actionId s = (Returned false, s)).
Proof.
  intros HQ HF. split.
  - intros Hin. destruct (find_by_id_present _ _ Hin) as (a & Hfind & Ha & Hid).
    exists a. eexists. split; [exact Ha|]. split; [exact Hid|].
    split.
    + unfold retryFailedAction. rewrite Hfind. run_async. rewrite HQ. run_async.
      rewrite HF. fold (reset a). reflexivity.
    + cbn [queue failedQueue idb isSyncing syncProgress toasts invoked].
      repeat split; try assumption.
      * apply filter_drops_id.
      * rewrite lookup_insert_ne by discriminate. apply lookup_insert_eq.
      * apply lookup_insert_eq.
  - intros Hout. unfold retryFailedAction. rewrite (find_by_id_absent _ _ Hout).
    reflexivity.
Qed.

(** ** Persistence failures inside a drain *)

(** C10. When a write to the store rejects inside a drain (the write of the
    remaining pending queue, or the write of the dead-letter queue when some
    action was dead-lettered), [syncNow] ends by that exception with
    [isSyncing] still true and [syncProgress] still set (to the last
    position of the batch); the flag and the progress are cleared only when
    [syncNow] returns. *)
Theorem syncNow_store_failure_leaves_flag env failedQueue_c s batch :
  idb s !! QUEUE_KEY = Some batch -> batch <> [] ->
  (set_rejects env QUEUE_KEY = true
   \/ (newFailed (batch_vars env batch) <> [] /\ set_rejects env FAILED_QUEUE_KEY = true) ->
   exists key s',
     syncNow env failedQueue_c s = (Thrown key, s')
     /\ isSyncing s' = true
     /\ syncProgress s' = Some (mkProgress (length batch) (length batch)))
  /\ (forall s', syncNow env failedQueue_c s = (Returned tt, s') ->
      isSyncing s' = false /\ syncProgress s' = None).
Proof.
  intros H Hne. split.
  - intros Hrej. destruct (set_rejects env QUEUE_KEY) eqn:HQ.
    + eexists _, _. split; [apply (syncNow_throws_queue _ _ _ _ H Hne HQ)|].
      split; reflexivity.
    + destruct Hrej as [|[Hd HF]]; [discriminate|].
      eexists _, _. split; [apply (syncNow_throws_failed _ _ _ _ H Hne HQ Hd HF)|].
      split; reflexivity.
  - intros s' Hret. destruct (set_rejects env QUEUE_KEY) eqn:HQ.
    + rewrite (syncNow_throws_queue _ _ _ _ H Hne HQ) in Hret. discriminate.
    + destruct (newFailed (batch_vars env batch)) as [|d ds] eqn:Hd.
      * rewrite (syncNow_returns _ _ _ _ H Hne HQ (or_introl Hd)) in Hret.
        inversion Hret; subst s'. split; reflexivity.
      * destruct (set_rejects env FAILED_QUEUE_KEY) eqn:HF.
        -- assert (Hd' : newFailed (batch_vars env batch) <> []) by (rewrite Hd; discriminate).
           rewrite (syncNow_throws_failed _ _ _ _ H Hne HQ Hd' HF) in Hret. discriminate.
        -- rewrite (syncNow_returns _ _ _ _ H Hne HQ (or_intror HF)) in Hret.
           inversion Hret; subst s'. split; reflexivity.
Qed.

(** ** The A, B, C scenario *)

(** C7. Enqueue A, B, C in that order on an empty pending queue (each with
    [retryCount] 0, as [addOfflineAction] builds them); let one drain find
    the executor of B rejecting and those of A and C resolving.  The drain
    returns with pending = [B] where B has [retryCount] 1 and the error
    message, in memory and in the store; the dead-letter queue is what it
    was; the success toast reports 2. *)
Theorem drain_of_A_B_C env s0 idA idB idC nowA nowB nowC tyA tyB tyC pA pB pC message :
  queue s0 = [] ->
  set_rejects env QUEUE_KEY = false ->
  let A := newAction idA tyA pA nowA in
  let B := newAction idB tyB pB nowB in
  let C := newAction idC tyC pC nowC in
  outcome env 0 A = Resolved ->
  outcome env 1 B = Rejected message ->
  outcome env 2 C = Resolved ->
  let s3 := enqueue env idC nowC tyC pC
              (enqueue env idB nowB tyB pB (enqueue env idA nowA tyA pA s0)) in
  let B1 := {| id := idB; type := tyB; payload := pB; timestamp := nowB;
               retryCount := Some 1; lastError := message |} in
  queue s3 = [A; B; C]
  /\ exists s',
       syncNow env (failedQueue s3) s3 = (Returned tt, s')
       /\ queue s' = [B1]
       /\ idb s' !! QUEUE_KEY = Some [B1]
       /\ failedQueue s' = failedQueue s0
       /\ idb s' !! FAILED_QUEUE_KEY = idb s0 !! FAILED_QUEUE_KEY
       /\ toasts s' = toasts s0 ++ [ToastSuccess 2]
       /\ isSyncing s' = false /\ syncProgress s' = None.
Proof.
  intros Hq HQ A B C HA HB HC s3 B1.
  assert (Hs3 : queue s3 = [A; B; C] /\ idb s3 !! QUEUE_KEY = Some [A; B; C]
                /\ failedQueue s3 = failedQueue s0
                /\ idb s3 !! FAILED_QUEUE_KEY = idb s0 !! FAILED_QUEUE_KEY
                /\ toasts s3 = toasts s0).
  { subst s3. unfold enqueue, addOfflineAction. repeat (run_async; rewrite ?HQ).
    run_async. rewrite Hq. cbn [app].
    repeat split; [apply lookup_insert_eq|].
    rewrite !lookup_insert_ne by discriminate. reflexivity. }
  destruct Hs3 as (Hq3 & Hi3 & Hf3 & Hif3 & Ht3).
  split; [exact Hq3|].
  assert (Hv : batch_vars env [A; B; C] = mkVars 2 [B1] []).
  { unfold batch_vars. cbn [loop_vars]. rewrite HA, HB, HC. reflexivity. }
  eexists. split.
  - apply (syncNow_returns env _ s3 [A; B; C] Hi3); [discriminate|exact HQ|].
    left. rewrite Hv. reflexivity.
  - unfold drained. rewrite Hv. cbn [queue failedQueue idb toasts isSyncing syncProgress
      remainingQueue newFailed successCount Nat.ltb Nat.leb app].
    repeat split; try assumption.
    + apply lookup_insert_eq.
    + rewrite lookup_insert_ne by discriminate. assumption.
    + rewrite Ht3. reflexivity.
Qed.

(** ** Actions whose type selects no executor *)

Lemma unmatched_outcome env index a :
  executor_for env (type a) = None -> outcome env index a = Resolved.
Proof. intros H. unfold outcome. rewrite H. reflexivity. Qed.

Lemma unmatched_batch env batch :
  Forall (fun b => executor_for env (type b) = None) batch ->
  forall index,
    kept_all env index batch = [] /\ dead_all env index batch = []
    /\ synced_all env index batch = length batch
    /\ List.filter (has_executor env) batch = [].
Proof.
  induction 1 as [|a batch Ha _ IH]; intros index; cbn.
  - repeat split.
  - destruct (IH (S index)) as (Hk & Hd & Hs & Hf).
    rewrite (unmatched_outcome _ _ _ Ha), Hk, Hd, Hs. cbn.
    unfold has_executor at 1. rewrite Ha. repeat split. exact Hf.
Qed.

(** Counterexample to C4 as stated: an action tagged "DELETE_NOTICE" is
    dropped from pending by one drain, reaches neither queue, and is
    reported as one synchronised item, although every executor rejects. *)
Lemma unmatched_type_is_not_a_failure :
  executor_for env_offline "DELETE_NOTICE" = None
  /\ ids (queue one_unmatched) = ["x-1"]
  /\ exists s',
       syncNow env_offline (failedQueue one_unmatched) one_unmatched = (Returned tt, s')
       /\ queue s' = [] /\ failedQueue s' = []
       /\ idb s' !! QUEUE_KEY = Some [] /\ idb s' !! FAILED_QUEUE_KEY = None
       /\ toasts s' = [ToastSuccess 1] /\ invoked s' = [].
Proof.
  split; [reflexivity|]. split; [reflexivity|].
  eexists. split; [vm_compute; reflexivity|].
  repeat split.
Qed.

(** C4 (amended). An action whose type matches none of the three cases of
    the switch is not treated as a failure.  Its loop iteration updates the
    progress, invokes no executor, throws nothing and adds one to
    [successCount]; the action is put neither in the next pending queue nor
    in the dead-letter queue.  So a drain of a batch made of such actions
    returns with an empty pending queue (in memory and in the store), the
    dead-letter queue as it was, and a success toast counting the whole
    batch. *)
Theorem unmatched_type_counts_as_success env a :
  executor_for env (type a) = None ->
  (forall len index rest v s,
     sync_loop env len index (a :: rest) v s =
     sync_loop env len (S index) rest
       (mkVars (S (successCount v)) (remainingQueue v) (newFailed v))
       (after (setSyncProgress (Some (mkProgress (index + 1) len))) s))
  /\ (forall failedQueue_c s batch,
        idb s !! QUEUE_KEY = Some (a :: batch) ->
        Forall (fun b => executor_for env (type b) = None) batch ->
        set_rejects env QUEUE_KEY = false ->
        syncNow env failedQueue_c s =
        (Returned tt,
         mkState [] (failedQueue s) false None (<[QUEUE_KEY := []]> (idb s))
                 (toasts s ++ [ToastSuccess (S (length batch))]) (invoked s))).
Proof.
  intros Ha. split.
  - intros len index rest v s. cbn [sync_loop]. unfold bind at 1. cbn [setSyncProgress].
    unfold bind at 1, try_switch. rewrite Ha. reflexivity.
  - intros fq s batch Hidb Hall HQ.
    assert (Hall' : Forall (fun b => executor_for env (type b) = None) (a :: batch))
      by (constructor; assumption).
    destruct (unmatched_batch _ _ Hall' 0%nat) as (Hk & Hd & Hs & Hf).
    assert (Hv : batch_vars env (a :: batch) = mkVars (S (length batch)) [] []).
    { rewrite batch_vars_split, Hk, Hd, Hs. reflexivity. }
    rewrite (syncNow_returns env fq s (a :: batch) Hidb); [|discriminate|exact HQ|].
    + unfold drained. rewrite Hv, Hf. cbn [remainingQueue newFailed successCount].
      rewrite !app_nil_r. reflexivity.
    + left. rewrite Hv. reflexivity.
Qed.

(** ** Re-entrancy *)






(** ** The drain, await by await *)

Lemma invoked_after_idb_set env key v s : invoked (after (idb_set env key v) s) = invoked s.
Proof. unfold after, idb_set. destruct (set_rejects env key); reflexivity. Qed.

Lemma loop_vars_snoc env done a v :
  loop_vars env 0 (done ++ [a]) v =
  settle a (outcome env (length done) a) (loop_vars env 0 done v).
Proof. rewrite loop_vars_app. reflexivity. Qed.

Lemma filter_snoc env done a :
  List.filter (has_executor env) (done ++ [a]) =
  List.filter (has_executor env) done ++ (if has_executor env a then [a] else []).
Proof. rewrite List.filter_app. reflexivity. Qed.

(** From any position of the loop, the run to the next await keeps the
    drain on its snapshot. *)
Lemma advance_in_flight env failedQueue_c batch log0 : forall rest done v s index len,
  batch = done ++ rest -> index = length done -> len = length batch ->
  v = loop_vars env 0 done (mkVars 0 [] []) ->
  invoked s = log0 ++ List.filter (has_executor env) done ->
  in_flight env batch log0 (advance env failedQueue_c len index rest v s).
Proof.
  induction rest as [|a rest IH]; intros done v s index len Hb Hi Hl Hv Hlog.
  - rewrite app_nil_r in Hb. subst done. cbn [advance]. unfold in_flight. cbn [fst snd].
    split; [exact Hv|]. rewrite invoked_after_idb_set. exact Hlog.
  - cbn [advance]. destruct (executor_for env (type a)) as [exec|] eqn:He.
    + unfold in_flight. cbn [fst snd await_executor invoked after setSyncProgress].
      exists done. repeat split; try assumption.
      rewrite filter_snoc, Hlog, <- app_assoc. unfold has_executor. rewrite He. reflexivity.
    + apply (IH (done ++ [a])).
      * rewrite <- app_assoc. exact Hb.
      * rewrite length_app. cbn. lia.
      * exact Hl.
      * rewrite loop_vars_snoc, (unmatched_outcome _ _ _ He), <- Hv. reflexivity.
      * cbn [after setSyncProgress snd invoked]. rewrite filter_snoc, Hlog.
        unfold has_executor. rewrite He, app_nil_r. reflexivity.
Qed.

(** When it leaves the loop, the same run replaces pending by the
    [remainingQueue] it has built. *)
Lemma advance_written_back env failedQueue_c : forall rest v s index len,
  set_rejects env QUEUE_KEY = false ->
  written_back (remainingQueue (loop_vars env index rest v))
               (advance env failedQueue_c len index rest v s).
Proof.
  induction rest as [|a rest IH]; intros v s index len HQ.
  - cbn [advance loop_vars]. unfold written_back. run_async. rewrite HQ. cbn [fst snd queue idb].
    split; [reflexivity|apply lookup_insert_eq].
  - cbn [advance loop_vars]. destruct (executor_for env (type a)) as [exec|] eqn:He.
    + exact I.
    + rewrite (unmatched_outcome _ _ _ He). apply IH, HQ.
Qed.

Lemma advance_awaits_left env failedQueue_c : forall rest v s index len,
  (awaits_left (fst (advance env failedQueue_c len index rest v s)) <= length rest + 2)%nat.
Proof.
  induction rest as [|a rest IH]; intros v s index len; cbn [advance].
  - cbn. lia.
  - destruct (executor_for env (type a)).
    + cbn. lia.
    + specialize (IH (on_resolved v)
        (after (setSyncProgress (Some (mkProgress (index + 1) len))) s) (S index) len).
      cbn [length]. lia.
Qed.

(** Taking the snapshot. *)
Lemma first_resume_in_flight env failedQueue_c s batch :
  idb s !! QUEUE_KEY = Some batch -> batch <> [] ->
  in_flight env batch (invoked s) (resume env (AwaitGet failedQueue_c) s).
Proof.
  intros H Hne. cbn [resume]. rewrite H. destruct batch as [|a batch]; [congruence|].
  apply (advance_in_flight env failedQueue_c (a :: batch) (invoked s) (a :: batch) []);
    try reflexivity.
  cbn. rewrite app_nil_r. reflexivity.
Qed.

Lemma finish_settles v s :
  exists s', finish v s = (Settled (Returned tt), s')
             /\ queue s' = queue s /\ idb s' = idb s /\ invoked s' = invoked s.
Proof.
  unfold finish. destruct (0 <? successCount v)%nat; eexists; split; try reflexivity;
    repeat split.
Qed.

(** Resuming keeps the drain on its snapshot... *)
Lemma resume_in_flight env batch log0 t s :
  in_flight env batch log0 (t, s) -> in_flight env batch log0 (resume env t s).
Proof.
  destruct t as [fq|fq len index a rest v|fq v|v|c]; unfold in_flight at 1; cbn [fst snd].
  - intros [].
  - intros (done & Hb & Hi & Hl & Hv & Hlog). cbn [resume]. fold (outcome env index a).
    apply (advance_in_flight env fq batch log0 rest (done ++ [a])).
    + rewrite <- app_assoc. exact Hb.
    + rewrite length_app. cbn. lia.
    + exact Hl.
    + rewrite loop_vars_snoc, <- Hv, <- Hi. reflexivity.
    + exact Hlog.
  - intros [Hv Hlog]. cbn [resume]. destruct (set_rejects env QUEUE_KEY); [exact Hlog|].
    destruct (newFailed v) as [|d ds].
    + destruct (finish_settles v s) as (s' & -> & _ & _ & Hi). unfold in_flight; cbn.
      rewrite Hi. exact Hlog.
    + unfold in_flight; cbn [fst snd]. split; [exact Hv|].
      rewrite invoked_after_idb_set. exact Hlog.
  - intros [Hv Hlog]. cbn [resume]. destruct (set_rejects env FAILED_QUEUE_KEY); [exact Hlog|].
    destruct (finish_settles v (after (addToast (ToastError (length (newFailed v)))) s))
      as (s' & -> & _ & _ & Hi).
    unfold in_flight; cbn [fst snd]. rewrite Hi. exact Hlog.
  - intros Hlog. exact Hlog.
Qed.

(** ... and so does an enqueue that arrives meanwhile. *)
Lemma step_in_flight env batch log0 e ts :
  in_flight env batch log0 ts -> in_flight env batch log0 (step env e ts).
Proof.
  destruct ts as [t s], e as [|uuid now ty p]; cbn [step fst snd].
  - apply resume_in_flight.
  - assert (Hi : invoked (after (addOfflineAction env (queue s) uuid now ty p) s) = invoked s).
    { unfold addOfflineAction. run_async. destruct (set_rejects env QUEUE_KEY); reflexivity. }
    unfold in_flight; cbn [fst snd]. rewrite Hi. trivial.
Qed.

Lemma interleave_in_flight env batch log0 events : forall ts,
  in_flight env batch log0 ts -> in_flight env batch log0 (interleave env events ts).
Proof.
  unfold interleave. induction events as [|e events IH]; intros ts H; cbn [fold_left].
  - exact H.
  - apply IH, step_in_flight, H.
Qed.



Lemma syncNow_invoked env failedQueue_c s batch :
  idb s !! QUEUE_KEY = Some batch -> batch <> [] ->
  exists c s', syncNow env failedQueue_c s = (c, s')
               /\ invoked s' = invoked s ++ List.filter (has_executor env) batch.
Proof.
  intros H Hne. destruct (set_rejects env QUEUE_KEY) eqn:HQ.
  { eexists _, _. split; [apply (syncNow_throws_queue _ _ _ _ H Hne HQ)|reflexivity]. }
  destruct (newFailed (batch_vars env batch)) as [|d ds] eqn:Hd.
  { eexists _, _. split; [apply (syncNow_returns _ _ _ _ H Hne HQ (or_introl Hd))|reflexivity]. }
  destruct (set_rejects env FAILED_QUEUE_KEY) eqn:HF.
  - assert (Hd' : newFailed (batch_vars env batch) <> []) by (rewrite Hd; discriminate).
    eexists _, _. split; [apply (syncNow_throws_failed _ _ _ _ H Hne HQ Hd' HF)|reflexivity].
  - eexists _, _. split; [apply (syncNow_returns _ _ _ _ H Hne HQ (or_intror HF))|reflexivity].
Qed.

(** ** Order of execution *)

Lemma has_executor_has_case env a : has_executor env a = has_case a.
Proof.
  unfold has_executor, has_case, executor_for.
  destruct (String.eqb (type a) "SUBMIT_ACTIVITY"); [reflexivity|].
  destruct (String.eqb (type a) "GRADE_ACTIVITY"); [reflexivity|].
  destruct (String.eqb (type a) "POST_NOTICE"); reflexivity.
Qed.

Lemma filter_has_executor env l :
  List.filter (has_executor env) l = List.filter has_case l.
Proof.
  induction l as [|a l IH]; [reflexivity|]. cbn [List.filter].
  rewrite has_executor_has_case, IH. reflexivity.
Qed.


(** The call awaited for an action is settled by the executor its tag
    names, on its own payload, at its position in the batch. *)
Lemma outcome_by_tag env index a :
  outcome env index a =
  if String.eqb (type a) "SUBMIT_ACTIVITY" then executeSubmitActivity env (payload a) index
  else if String.eqb (type a) "GRADE_ACTIVITY" then executeGradeActivity env (payload a) index
  else if String.eqb (type a) "POST_NOTICE" then executePostNotice env (payload a) index
  else Resolved.
Proof.
  unfold outcome, executor_for.
  destruct (String.eqb (type a) "SUBMIT_ACTIVITY"); [reflexivity|].
  destruct (String.eqb (type a) "GRADE_ACTIVITY"); [reflexivity|].
  destruct (String.eqb (type a) "POST_NOTICE"); reflexivity.
Qed.


(** ** Enqueues that arrive during a drain *)

Lemma elem_of_kept_all env rest x : forall index,
  x ∈ kept_all env index rest ->
  exists j b message,
    rest !! j = Some b /\ outcome env (index + j) b = Rejected message
    /\ default 0 (retryCount b) < MAX_RETRIES /\ x = bump b message.
Proof.
  induction rest as [|a rest IH]; intros index Hx; cbn in Hx; [inversion Hx|].
  apply elem_of_app in Hx as [Hx|Hx].
  - unfold kept in Hx. destruct (outcome env index a) as [|m] eqn:Ho; [inversion Hx|].
    destruct (default 0 (retryCount a) <? MAX_RETRIES) eqn:Hlt; [|inversion Hx].
    apply list_elem_of_singleton in Hx. exists 0%nat, a, m.
    rewrite Nat.add_0_r. repeat split; try assumption. apply Z.ltb_lt, Hlt.
  - destruct (IH _ Hx) as (j & b & m & Hj & Ho & Hlt & E).
    exists (S j), b, m. rewrite Nat.add_succ_r. repeat split; assumption.
Qed.

Lemma elem_of_dead_all env rest x : forall index,
  x ∈ dead_all env index rest ->
  exists j b message,
    rest !! j = Some b /\ outcome env (index + j) b = Rejected message
    /\ MAX_RETRIES <= default 0 (retryCount b) /\ x = bury b message.
Proof.
  induction rest as [|a rest IH]; intros index Hx; cbn in Hx; [inversion Hx|].
  apply elem_of_app in Hx as [Hx|Hx].
  - unfold dead in Hx. destruct (outcome env index a) as [|m] eqn:Ho; [inversion Hx|].
    destruct (default 0 (retryCount a) <? MAX_RETRIES) eqn:Hlt; [inversion Hx|].
    apply list_elem_of_singleton in Hx. exists 0%nat, a, m.
    rewrite Nat.add_0_r. repeat split; try assumption. apply Z.ltb_ge, Hlt.
  - destruct (IH _ Hx) as (j & b & m & Hj & Ho & Hlt & E).
    exists (S j), b, m. rewrite Nat.add_succ_r. repeat split; assumption.
Qed.

Lemma resume_written_back env batch log0 t s :
  set_rejects env QUEUE_KEY = false ->
  in_flight env batch log0 (t, s) ->
  written_back (remainingQueue (batch_vars env batch)) (t, s) ->
  written_back (remainingQueue (batch_vars env batch)) (resume env t s).
Proof.
  intros HQ. destruct t as [fq|fq len index a rest v|fq v|v|c];
    unfold in_flight at 1, written_back at 1; cbn [fst snd].
  - intros [].
  - intros (done & Hb & Hi & Hl & Hv & Hlog) _. cbn [resume]. fold (outcome env index a).
    replace (batch_vars env batch)
      with (loop_vars env (S index) rest (settle a (outcome env index a) v)).
    + apply advance_written_back, HQ.
    + unfold batch_vars. rewrite Hb, loop_vars_app, <- Hv, <- Hi. reflexivity.
  - intros _ [Hq Hs]. cbn [resume]. rewrite HQ. destruct (newFailed v) as [|d ds].
    + destruct (finish_settles v s) as (s' & -> & Hq' & Hs' & _).
      unfold written_back; cbn [fst snd]. rewrite Hq', Hs'. split; assumption.
    + unfold written_back. run_async.
      destruct (set_rejects env FAILED_QUEUE_KEY); cbn [fst snd queue idb].
      * split; assumption.
      * split; [assumption|]. rewrite lookup_insert_ne by discriminate. assumption.
  - intros _ [Hq Hs]. cbn [resume].
    destruct (set_rejects env FAILED_QUEUE_KEY); [split; assumption|].
    destruct (finish_settles v (after (addToast (ToastError (length (newFailed v)))) s))
      as (s' & -> & Hq' & Hs' & _).
    unfold written_back; cbn [fst snd]. rewrite Hq', Hs'. split; assumption.
  - intros _ H. exact H.
Qed.

Lemma resumes_written_back env batch log0 k : forall ts,
  set_rejects env QUEUE_KEY = false ->
  in_flight env batch log0 ts ->
  written_back (remainingQueue (batch_vars env batch)) ts ->
  written_back (remainingQueue (batch_vars env batch)) (interleave env (repeat Resume k) ts).
Proof.
  unfold interleave. induction k as [|k IH]; intros [t s] HQ Hfl Hwb; cbn [repeat fold_left].
  - exact Hwb.
  - apply IH; [exact HQ| |]; cbn [step fst snd].
    + apply resume_in_flight, Hfl.
    + apply (resume_written_back env batch log0); assumption.
Qed.

Lemma resume_awaits_left env batch log0 t s :
  in_flight env batch log0 (t, s) ->
  (awaits_left (fst (resume env t s)) <= pred (awaits_left t))%nat.
Proof.
  destruct t as [fq|fq len index a rest v|fq v|v|c]; unfold in_flight; cbn [fst snd].
  - intros [].
  - intros _. cbn [resume awaits_left].
    match goal with
    | |- context [advance ?e ?f ?l ?i ?r ?w ?st] =>
        pose proof (advance_awaits_left e f r w st i l)
    end. lia.
  - intros _. cbn [resume]. destruct (set_rejects env QUEUE_KEY); [cbn; lia|].
    destruct (newFailed v); [|cbn; lia].
    destruct (finish_settles v s) as (s' & -> & _). cbn; lia.
  - intros _. cbn [resume]. destruct (set_rejects env FAILED_QUEUE_KEY); [cbn; lia|].
    destruct (finish_settles v (after (addToast (ToastError (length (newFailed v)))) s))
      as (s' & -> & _). cbn; lia.
  - intros _. cbn. lia.
Qed.

(** A drain in flight that is only resumed ends. *)
Lemma resumes_settle env batch log0 k : forall ts,
  in_flight env batch log0 ts -> (awaits_left (fst ts) <= k)%nat ->
  exists c, fst (interleave env (repeat Resume k) ts) = Settled c.
Proof.
  unfold interleave. induction k as [|k IH]; intros [t s] Hfl Hk; cbn [repeat fold_left].
  - destruct t; cbn in Hk, Hfl; try lia; try contradiction; eauto.
  - apply IH; cbn [step fst snd].
    + apply resume_in_flight, Hfl.
    + pose proof (resume_awaits_left env batch log0 t s Hfl). cbn [fst] in Hk. lia.
Qed.

(** Counterexample to C3 as stated: an action enqueued while the drain of
    [one_pending] awaits its executor is in the pending queue, in memory and
    in the store, when the enqueue returns; when the drain has ended it is
    in neither. *)
Lemma enqueue_during_drain_is_lost :
  (exists len index a rest v, fst enqueued_mid_drain = AwaitExecutor [] len index a rest v)
  /\ isSyncing (snd enqueued_mid_drain) = true
  /\ ids (queue (snd enqueued_mid_drain)) = ["a-1"; "b-2"]
  /\ ids <$> idb (snd enqueued_mid_drain) !! QUEUE_KEY = Some ["a-1"; "b-2"]
  /\ fst drain_ended = Settled (Returned tt)
  /\ ids (queue (snd drain_ended)) = ["a-1"]
  /\ ids <$> idb (snd drain_ended) !! QUEUE_KEY = Some ["a-1"]
  /\ ids (failedQueue (snd drain_ended)) = []
  /\ ids (invoked (snd drain_ended)) = ["a-1"].
Proof.
  split; [vm_compute; eauto 10|]. repeat split.
Qed.

(** C3 (amended). The pending queue a drain writes back is built from its
    snapshot alone.  Whatever is enqueued while the drain is still in its
    loop, the drain then runs to its end, and at that point the pending
    queue, in memory and in the store, is exactly the list of the snapshot's
    actions that failed below the retry ceiling, each with its [retryCount]
    raised: the actions enqueued meanwhile are not merged in. *)
Theorem drain_writes_back_only_its_snapshot env failedQueue_c s0 batch events :
  idb s0 !! QUEUE_KEY = Some batch -> batch <> [] ->
  set_rejects env QUEUE_KEY = false ->
  let mid := interleave env (Resume :: events) (AwaitGet failedQueue_c, s0) in
  (exists fq len index a rest v, fst mid = AwaitExecutor fq len index a rest v) ->
  (exists k c s', interleave env (repeat Resume k) mid = (Settled c, s'))
  /\ (forall k c s',
        interleave env (repeat Resume k) mid = (Settled c, s') ->
        queue s' = kept_all env 0 batch
        /\ idb s' !! QUEUE_KEY = Some (kept_all env 0 batch)
        /\ (forall x, x ∈ queue s' ->
              exists b message, b ∈ batch /\ x = bump b message)).
Proof.
  intros H Hne HQ mid Hloop.
  assert (Hfl : in_flight env batch (invoked s0) mid).
  { subst mid. unfold interleave. cbn [fold_left step fst snd].
    apply (interleave_in_flight env batch (invoked s0) events).
    apply first_resume_in_flight; assumption. }
  assert (Hwb : written_back (remainingQueue (batch_vars env batch)) mid).
  { destruct Hloop as (fq & len & index & a & rest & v & Ht).
    unfold written_back. rewrite Ht. exact I. }
  split.
  - destruct (resumes_settle env batch (invoked s0) (awaits_left (fst mid)) mid Hfl
                ltac:(lia)) as [c Hc].
    exists (awaits_left (fst mid)), c.
    destruct (interleave env (repeat Resume (awaits_left (fst mid))) mid) as [t s'].
    exists s'. cbn in Hc. rewrite Hc. reflexivity.
  - intros k c s' Hend.
    pose proof (resumes_written_back env batch (invoked s0) k mid HQ Hfl Hwb) as Hw.
    rewrite Hend in Hw. unfold written_back in Hw. cbn [fst snd] in Hw.
    rewrite batch_vars_split in Hw. cbn [remainingQueue] in Hw.
    destruct Hw as [Hq Hs]. split; [exact Hq|]. split; [exact Hs|].
    intros x Hx. rewrite Hq in Hx.
    destruct (elem_of_kept_all _ _ _ _ Hx) as (j & b & m & Hj & _ & _ & E).
    exists b, m. split; [|exact E]. apply list_elem_of_lookup. exists j. exact Hj.
Qed.

(** ** The retry ceiling *)

Lemma kept_all_intro env rest : forall index j b message,
  rest !! j = Some b -> outcome env (index + j) b = Rejected message ->
  default 0 (retryCount b) < MAX_RETRIES ->
  bump b message ∈ kept_all env index rest.
Proof.
  induction rest as [|a rest IH]; intros index j b m Hj Ho Hlt; [inversion Hj|].
  cbn [kept_all]. apply elem_of_app. destruct j as [|j]; cbn in Hj.
  - injection Hj as ->. left. rewrite Nat.add_0_r in Ho. unfold kept. rewrite Ho.
    apply Z.ltb_lt in Hlt. rewrite Hlt. left.
  - right. apply (IH (S index) j); [exact Hj| |exact Hlt].
    rewrite Nat.add_succ_r in Ho. exact Ho.
Qed.

Lemma dead_all_intro env rest : forall index j b message,
  rest !! j = Some b -> outcome env (index + j) b = Rejected message ->
  MAX_RETRIES <= default 0 (retryCount b) ->
  bury b message ∈ dead_all env index rest.
Proof.
  induction rest as [|a rest IH]; intros index j b m Hj Ho Hge; [inversion Hj|].
  cbn [dead_all]. apply elem_of_app. destruct j as [|j]; cbn in Hj.
  - injection Hj as ->. left. rewrite Nat.add_0_r in Ho. unfold dead. rewrite Ho.
    apply Z.ltb_ge in Hge. rewrite Hge. left.
  - right. apply (IH (S index) j); [exact Hj| |exact Hge].
    rewrite Nat.add_succ_r in Ho. exact Ho.
Qed.

Lemma ids_kept_all_sublist env rest : forall index,
  ids (kept_all env index rest) `sublist_of` ids rest.
Proof.
  induction rest as [|a rest IH]; intros index; cbn [kept_all]; [constructor|].
  rewrite ids_app. unfold kept.
  destruct (outcome env index a) as [|m]; cbn [ids fmap list_fmap app].
  - apply sublist_cons, IH.
  - destruct (default 0 (retryCount a) <? MAX_RETRIES); cbn [fmap list_fmap app bump id].
    + apply sublist_skip, IH.
    + apply sublist_cons, IH.
Qed.

(** With unique ids, an id names one action of the list. *)
Lemma unique_id_names_one (l : list OfflineAction) i j a b :
  NoDup (ids l) -> l !! i = Some a -> l !! j = Some b -> id a = id b -> a = b.
Proof.
  intros Hnd Hi Hj E.
  assert (i = j).
  { apply (NoDup_lookup (ids l) i j (id a) Hnd); unfold ids; rewrite list_lookup_fmap.
    - rewrite Hi. reflexivity.
    - rewrite Hj, E. reflexivity. }
  subst j. congruence.
Qed.

Lemma outcome_same_action env index x a :
  same_action x a -> outcome env index x = outcome env index a.
Proof. intros (_ & Ht & Hp & _). unfold outcome. rewrite Ht, Hp. reflexivity. Qed.

Lemma rejects_same_action env x a : same_action x a -> rejects env a -> rejects env x.
Proof.
  intros Hs Hr index. destruct (Hr index) as [m Hm]. exists m.
  rewrite (outcome_same_action _ _ _ _ Hs). exact Hm.
Qed.

Lemma drain_returns env s batch :
  idb s !! QUEUE_KEY = Some batch -> batch <> [] -> writable env ->
  drain env s = drained env (failedQueue s) batch s.
Proof.
  intros H Hne [HQ HF]. unfold drain, after.
  rewrite (syncNow_returns _ _ _ _ H Hne HQ (or_intror HF)). reflexivity.
Qed.

Lemma failedQueue_drained env s batch x :
  x ∈ failedQueue (drained env (failedQueue s) batch s) ->
  x ∈ failedQueue s \/ x ∈ dead_all env 0 batch.
Proof.
  unfold drained. rewrite batch_vars_split. cbn [failedQueue newFailed].
  destruct (dead_all env 0 batch) as [|d ds]; [left; assumption|].
  intros Hx. apply elem_of_app in Hx. exact Hx.
Qed.

(** One failed drain below the ceiling: the action stays pending, with one
    more retry on its count. *)
Lemma drain_failing_below_ceiling env s a :
  pending_only s a -> writable env -> rejects env a ->
  default 0 (retryCount a) < MAX_RETRIES ->
  exists message, pending_only (drain env s) (bump a message).
Proof.
  intros (Hs & Ha & Hnd & Hnf) Hw Hr Hlt.
  assert (Hne : queue s <> []) by (intros E; rewrite E in Ha; inversion Ha).
  apply list_elem_of_lookup in Ha as [j Hj].
  destruct (Hr j) as [m Hm]. exists m.
  rewrite (drain_returns env s (queue s) Hs Hne Hw).
  assert (Hq : queue (drained env (failedQueue s) (queue s) s) = kept_all env 0 (queue s)).
  { unfold drained. rewrite batch_vars_split. reflexivity. }
  unfold pending_only. rewrite Hq. repeat split.
  - unfold drained. rewrite batch_vars_split. cbn [idb newFailed remainingQueue].
    destruct (dead_all env 0 (queue s)).
    + apply lookup_insert_eq.
    + rewrite lookup_insert_ne by discriminate. apply lookup_insert_eq.
  - apply (kept_all_intro env (queue s) 0%nat j a m Hj Hm Hlt).
  - apply (sublist_NoDup _ (ids (queue s))); [exact Hnd|apply ids_kept_all_sublist].
  - intros Hin. unfold ids in Hin. apply list_elem_of_fmap in Hin as (x & Hid & Hx).
    cbn [bump id] in Hid.
    apply failedQueue_drained in Hx as [Hx|Hx].
    + apply Hnf. unfold ids. rewrite Hid. apply list_elem_of_fmap_2, Hx.
    + destruct (elem_of_dead_all _ _ _ _ Hx) as (j' & b & m' & Hj' & _ & Hge & ->).
      cbn [bury id] in Hid.
      assert (a = b) by exact (unique_id_names_one _ _ _ _ _ Hnd Hj Hj' Hid).
      subst b. lia.
Qed.

(** One failed drain at the ceiling: the action leaves pending for the
    dead-letter queue, its count unchanged. *)
Lemma drain_failing_at_ceiling env s a :
  pending_only s a -> writable env -> rejects env a ->
  MAX_RETRIES <= default 0 (retryCount a) ->
  exists message,
    bury a message ∈ failedQueue (drain env s)
    /\ idb (drain env s) !! FAILED_QUEUE_KEY = Some (failedQueue (drain env s))
    /\ id a ∉ ids (queue (drain env s)).
Proof.
  intros (Hs & Ha & Hnd & Hnf) Hw Hr Hge.
  assert (Hne : queue s <> []) by (intros E; rewrite E in Ha; inversion Ha).
  apply list_elem_of_lookup in Ha as [j Hj].
  destruct (Hr j) as [m Hm]. exists m.
  rewrite (drain_returns env s (queue s) Hs Hne Hw).
  pose proof (dead_all_intro env (queue s) 0%nat j a m Hj Hm Hge) as Hd.
  unfold drained. rewrite batch_vars_split.
  cbn [queue failedQueue idb newFailed remainingQueue].
  destruct (dead_all env 0 (queue s)) as [|d ds] eqn:Hdead; [inversion Hd|].
  split; [apply elem_of_app; right; exact Hd|]. split; [apply lookup_insert_eq|].
  intros Hin. unfold ids in Hin. apply list_elem_of_fmap in Hin as (x & Hid & Hx).
  destruct (elem_of_kept_all _ _ _ _ Hx) as (j' & b & m' & Hj' & _ & Hlt & ->).
  cbn [bump id] in Hid.
  assert (a = b) by exact (unique_id_names_one _ _ _ _ _ Hnd Hj Hj' Hid).
  subst b. lia.
Qed.

Lemma same_action_bump a message : same_action (bump a message) a.
Proof. repeat split. Qed.

Lemma same_action_bury a message : same_action (bury a message) a.
Proof. repeat split. Qed.

Lemma same_action_trans x y z : same_action x y -> same_action y z -> same_action x z.
Proof. unfold same_action. intros (?&?&?&?) (?&?&?&?). repeat split; congruence. Qed.

(** Failed drains below the ceiling add up on [retryCount]. *)
Lemma failing_drains_below_ceiling envs : forall s a c,
  pending_only s a -> retryCount a = Some c -> 0 <= c ->
  c + Z.of_nat (length envs) <= MAX_RETRIES ->
  Forall (fun env => writable env /\ rejects env a) envs ->
  exists x, pending_only (drains envs s) x /\ same_action x a
            /\ retryCount x = Some (c + Z.of_nat (length envs)).
Proof.
  induction envs as [|env envs IH]; intros s a c Hp Hc H0 Hle Hall.
  - exists a. cbn [drains length Z.of_nat]. rewrite Z.add_0_r.
    split; [exact Hp|]. split; [repeat split|exact Hc].
  - apply Forall_cons in Hall as [[Hw Hr] Hall]. cbn [length drains] in *.
    destruct (drain_failing_below_ceiling env s a Hp Hw Hr) as [m Hp'].
    { rewrite Hc. cbn. lia. }
    destruct (IH (drain env s) (bump a m) (c + 1) Hp') as (x & Hx & Hs & Hrc).
    + cbn. rewrite Hc. reflexivity.
    + lia.
    + lia.
    + eapply Forall_impl; [exact Hall|]. cbn. intros e [He1 He2]. split; [exact He1|].
      exact (rejects_same_action e _ _ (same_action_bump a m) He2).
    + exists x. split; [exact Hx|]. split.
      * exact (same_action_trans _ _ _ Hs (same_action_bump a m)).
      * rewrite Hrc. f_equal. lia.
Qed.

(** Counterexample to C1 as stated: after exactly three failed drains the
    action of [one_pending] is not in the dead-letter queue; it is still
    pending, with [retryCount] 3.  The fourth failed drain moves it. *)
Lemma three_failed_drains_leave_it_pending :
  let s3 := drains [env_offline; env_offline; env_offline] one_pending in
  let s4 := drain env_offline s3 in
  rejects env_offline (newAction "a-1" "SUBMIT_ACTIVITY" "activity 1" 1000)
  /\ queue one_pending = [newAction "a-1" "SUBMIT_ACTIVITY" "activity 1" 1000]
  /\ failedQueue s3 = []
  /\ idb s3 !! FAILED_QUEUE_KEY = None
  /\ ids (queue s3) = ["a-1"]
  /\ (retryCount <$> queue s3) = [Some 3]
  /\ queue s4 = []
  /\ ids (failedQueue s4) = ["a-1"]
  /\ (retryCount <$> failedQueue s4) = [Some 3].
Proof.
  cbv zeta. split; [intros index; eexists; reflexivity|]. repeat split.
Qed.

(** C1 (amended). Take a pending action with [retryCount] 0 whose executor
    rejects at every attempt (ids unique in pending, the store mirroring
    pending, writes accepted).  After k failed drains in a row, k <= 3, it is
    still pending, with [retryCount] k, and not in the dead-letter queue: the
    third failure does not dead-letter it.  It is the fourth failed drain in
    a row that moves it to the dead-letter queue, where it arrives with
    [retryCount] 3, and takes it out of pending. *)
Theorem failing_action_is_dead_lettered_by_fourth_drain envs s a :
  pending_only s a -> retryCount a = Some 0 ->
  Forall (fun env => writable env /\ rejects env a) envs ->
  ((length envs <= 3)%nat ->
   exists x, x ∈ queue (drains envs s) /\ same_action x a
             /\ retryCount x = Some (Z.of_nat (length envs))
             /\ id a ∉ ids (failedQueue (drains envs s)))
  /\ (length envs = 4%nat ->
      exists x, x ∈ failedQueue (drains envs s) /\ same_action x a
                /\ retryCount x = Some 3
                /\ id a ∉ ids (queue (drains envs s))).
Proof.
  intros Hp Hc Hall. split.
  - intros Hlen.
    destruct (failing_drains_below_ceiling envs s a 0 Hp Hc ltac:(lia)
                ltac:(unfold MAX_RETRIES; lia) Hall) as (x & Hx & Hs & Hrc).
    exists x. destruct Hx as (_ & Hin & _ & Hnf). repeat split; try apply Hs; try assumption.
    destruct Hs as [Hid _]. rewrite <- Hid. exact Hnf.
  - intros Hlen.
    destruct envs as [|e1 [|e2 [|e3 [|e4 [|e5 envs]]]]]; try discriminate Hlen.
    apply Forall_cons in Hall as [H1 Hall]. apply Forall_cons in Hall as [H2 Hall].
    apply Forall_cons in Hall as [H3 Hall]. apply Forall_cons in Hall as [[Hw4 Hr4] _].
    destruct (failing_drains_below_ceiling [e1; e2; e3] s a 0 Hp Hc ltac:(lia)
                ltac:(unfold MAX_RETRIES; cbn; lia)) as (x & Hx & Hs & Hrc).
    { constructor; [exact H1|]. constructor; [exact H2|]. constructor; [exact H3|].
      constructor. }
    change (drains [e1; e2; e3; e4] s) with (drain e4 (drains [e1; e2; e3] s)).
    destruct (drain_failing_at_ceiling e4 _ x Hx Hw4
                (rejects_same_action e4 _ _ Hs Hr4)) as (m & Hin & _ & Hnq).
    { rewrite Hrc. cbn. unfold MAX_RETRIES. lia. }
    exists (bury x m). split; [exact Hin|]. split.
    + exact (same_action_trans _ _ _ (same_action_bury x m) Hs).
    + split; [cbn [bury retryCount]; rewrite Hrc; reflexivity|].
      destruct Hs as [Hid _]. rewrite <- Hid. exact Hnq.
Qed.

(** ** Uniqueness of ids over the two queues *)

Lemma submseteq_NoDup {A} (l k : list A) : l ⊆+ k -> NoDup k -> NoDup l.
Proof.
  intros Hsub Hnd. apply submseteq_Permutation in Hsub as [k' Hk'].
  rewrite Hk' in Hnd. apply NoDup_app in Hnd. apply Hnd.
Qed.

(** What a drain keeps and what it dead-letters are, together, actions of
    the batch, each at most once. *)
Lemma ids_settled_submseteq env rest : forall index,
  ids (kept_all env index rest ++ dead_all env index rest) ⊆+ ids rest.
Proof.
  induction rest as [|a rest IH]; intros index; cbn [kept_all dead_all]; [constructor|].
  specialize (IH (S index)). rewrite ids_app in IH. rewrite !ids_app.
  unfold kept, dead. destruct (outcome env index a) as [|m]; cbn [ids fmap list_fmap app].
  - apply submseteq_cons. exact IH.
  - destruct (default 0 (retryCount a) <? MAX_RETRIES); cbn [ids fmap list_fmap app bump bury id].
    + apply submseteq_skip. exact IH.
    + rewrite <- Permutation_middle. apply submseteq_skip. exact IH.
Qed.



(** The move made by [retryFailedAction] itself keeps ids unique. *)
Lemma retryFailedAction_preserves_unique_ids env actionId s :
  unique_ids s ->
  unique_ids (after (retryFailedAction env (queue s) (failedQueue s) actionId) s).
Proof.
  intros Hnd. unfold retryFailedAction.
  destruct (List.find _ (failedQueue s)) as [a|] eqn:Hfind; [|exact Hnd].
  assert (Hin : actionId ∈ ids (failedQueue s)).
  { apply List.find_some in Hfind as [Ha E]. apply String.eqb_eq in E. subst actionId.
    unfold ids. apply list_elem_of_fmap_2, list_elem_of_In, Ha. }
  assert (Hid : id a = actionId).
  { apply List.find_some in Hfind as [_ E]. apply String.eqb_eq in E. exact E. }
  set (kept_failed := filter (fun x => id x <> actionId) (failedQueue s)).
  assert (Hgoal : NoDup (ids ((queue s ++ [reset a]) ++ kept_failed))).
  { unfold unique_ids in Hnd. rewrite ids_app in Hnd.
    apply NoDup_app in Hnd as (Hq & Hdisj & Hf).
    assert (Hsub : ids kept_failed `sublist_of` ids (failedQueue s))
      by (unfold ids; apply fmap_sublist, sublist_filter).
    rewrite !ids_app, <- app_assoc. cbn. rewrite Hid.
    apply NoDup_app. split; [exact Hq|]. split.
    - intros x Hx Hx'. apply elem_of_cons in Hx' as [->|Hx'].
      + exact (Hdisj _ Hx Hin).
      + apply (Hdisj _ Hx). exact (elem_of_sublist _ _ _ Hx' Hsub).
    - apply NoDup_cons. split; [apply filter_drops_id|].
      exact (sublist_NoDup _ _ Hf Hsub). }
  unfold unique_ids. run_async. fold (reset a). fold kept_failed.
  destruct (set_rejects env QUEUE_KEY); cbn [snd queue failedQueue]; [exact Hgoal|].
  destruct (set_rejects env FAILED_QUEUE_KEY); cbn [snd queue failedQueue]; exact Hgoal.
Qed.

(** A drain started from the current render keeps ids unique, and leaves
    the store mirroring pending. *)
Lemma drain_preserves_unique_ids env s :
  idb s !! QUEUE_KEY = Some (queue s) -> writable env -> unique_ids s ->
  unique_ids (drain env s)
  /\ idb (drain env s) !! QUEUE_KEY = Some (queue (drain env s)).
Proof.
  intros Hs Hw Hnd. destruct (queue s) as [|a q] eqn:Hq.
  - unfold drain, after. rewrite (syncNow_idle env _ s (or_intror Hs)). cbn [snd].
    rewrite Hq. split; assumption.
  - rewrite <- Hq in *. assert (Hne : queue s <> []) by (rewrite Hq; discriminate).
    rewrite (drain_returns env s (queue s) Hs Hne Hw).
    unfold drained, unique_ids. rewrite batch_vars_split.
    cbn [queue failedQueue idb newFailed remainingQueue]. split.
    + apply (submseteq_NoDup _ (ids (queue s ++ failedQueue s))); [|exact Hnd].
      pose proof (ids_settled_submseteq env (queue s) 0%nat) as Hsub.
      destruct (dead_all env 0 (queue s)) as [|d ds] eqn:Hd.
      * rewrite app_nil_r in Hsub. rewrite !ids_app. apply submseteq_skips_r, Hsub.
      * rewrite (ids_app (queue s)).
        transitivity (ids (kept_all env 0 (queue s) ++ d :: ds) ++ ids (failedQueue s)).
        -- rewrite !ids_app, <- !app_assoc. apply submseteq_skips_l.
           rewrite (comm (++) (ids (failedQueue s))). reflexivity.
        -- apply submseteq_skips_r, Hsub.
    + destruct (dead_all env 0 (queue s)).
      * apply lookup_insert_eq.
      * rewrite lookup_insert_ne by discriminate. apply lookup_insert_eq.
Qed.

(** C5. The invariant (no id twice over pending and dead-letter) is the
    one the operations are written for, and [retryFailedAction] breaks it
    through the drain it starts.  In [before_retry], "a-1" is dead-lettered
    and "b-2" is pending at the retry ceiling, ids are unique and the store
    mirrors both queues.  [retryFailedAction "a-1"] moves "a-1" to pending and
    calls the [syncNow] of its own render, whose [failedQueue] still holds
    "a-1"; when "b-2" fails, that stale list is written back with "b-2"
    appended.  "a-1" is then both pending (with [retryCount] 1) and
    dead-lettered (with [retryCount] 3), in memory and in the store.  The
    same drain started from the re-rendered component keeps the invariant. *)
Theorem retry_leaves_action_in_both_queues :
  let s' := retry env_offline "a-1" before_retry in
  let moved := after (retryFailedAction env_offline (queue before_retry)
                        (failedQueue before_retry) "a-1") before_retry in
  unique_ids before_retry
  /\ ids (queue before_retry) = ["b-2"]
  /\ ids (failedQueue before_retry) = ["a-1"]
  /\ idb before_retry !! QUEUE_KEY = Some (queue before_retry)
  /\ idb before_retry !! FAILED_QUEUE_KEY = Some (failedQueue before_retry)
  /\ ids (queue s') = ["a-1"]
  /\ ids (failedQueue s') = ["a-1"; "b-2"]
  /\ (retryCount <$> queue s') = [Some 1]
  /\ (retryCount <$> failedQueue s') = [Some 3; Some 3]
  /\ idb s' !! QUEUE_KEY = Some (queue s')
  /\ idb s' !! FAILED_QUEUE_KEY = Some (failedQueue s')
  /\ ~ unique_ids s'
  /\ ids (queue (drain env_offline moved)) = ["a-1"]
  /\ ids (failedQueue (drain env_offline moved)) = ["b-2"]
  /\ unique_ids (drain env_offline moved).
Proof.
  cbv zeta.
  split; [apply (bool_decide_unpack _); vm_compute; exact I|].
  do 10 (split; [vm_compute; reflexivity|]).
  split; [apply (bool_decide_eq_false_1 _); vm_compute; reflexivity|].
  do 2 (split; [vm_compute; reflexivity|]).
  apply (bool_decide_unpack _); vm_compute; exact I.
Qed.

(** ** The two models of [syncNow] agree *)

Lemma syncNow_unfold env failedQueue_c s :
  syncNow env failedQueue_c s =
  match idb s !! QUEUE_KEY with
  | None => (Returned tt, s)
  | Some [] => (Returned tt, s)
  | Some (a :: batch) =>
      (setIsSyncing true ;;
       setSyncProgress (Some (mkProgress 0 (length (a :: batch)))) ;;
       v <- sync_loop env (length (a :: batch)) 0 (a :: batch) (mkVars 0 [] []) ;;
       after_loop env failedQueue_c v) s
  end.
Proof.
  unfold syncNow, bind at 1, idb_get.
  destruct (idb s !! QUEUE_KEY) as [[|a batch]|]; reflexivity.
Qed.

Lemma resumes_of_settled env c s k :
  interleave env (repeat Resume k) (Settled c, s) = (Settled c, s).
Proof. unfold interleave. induction k as [|k IH]; cbn; [reflexivity|exact IH]. Qed.

Lemma one_more_resume env k ts c s' :
  interleave env (repeat Resume k) ts = (Settled c, s') ->
  interleave env (repeat Resume (S k)) ts = (Settled c, s').
Proof.
  intros H. change (repeat Resume (S k)) with (Resume :: repeat Resume k).
  rewrite repeat_cons. unfold interleave in *. rewrite fold_left_app, H.
  reflexivity.
Qed.

Lemma after_loop_resumed env failedQueue_c v s c s' :
  after_loop env failedQueue_c v s = (c, s') ->
  interleave env [Resume; Resume] (advance env failedQueue_c 0 0 [] v s) = (Settled c, s').
Proof.
  unfold after_loop, interleave. cbn [advance fold_left step resume fst snd]. run_async.
  destruct (set_rejects env QUEUE_KEY) eqn:HQ; cbn [fst snd].
  - rewrite ?HQ. cbn [resume]. intros [= <- <-]. reflexivity.
  - rewrite ?HQ. destruct v as [n q f]. cbn [newFailed remainingQueue successCount].
    destruct f as [|d ds].
    + unfold finish. run_async. cbn [resume].
      destruct (0 <? n)%nat; run_async; intros [= <- <-]; reflexivity.
    + run_async. destruct (set_rejects env FAILED_QUEUE_KEY) eqn:HF; cbn [fst snd resume].
      * rewrite ?HF. intros [= <- <-]. reflexivity.
      * rewrite ?HF. unfold finish. run_async.
        destruct (0 <? n)%nat; run_async; intros [= <- <-]; reflexivity.
Qed.

Lemma advance_len_irrelevant env failedQueue_c v s len index :
  advance env failedQueue_c len index [] v s = advance env failedQueue_c 0 0 [] v s.
Proof. reflexivity. Qed.

Lemma loop_resumed env failedQueue_c len : forall rest index v s c s',
  (v' <- sync_loop env len index rest v ;; after_loop env failedQueue_c v') s = (c, s') ->
  interleave env (repeat Resume (length rest + 2))
    (advance env failedQueue_c len index rest v s) = (Settled c, s').
Proof.
  induction rest as [|a rest IH]; intros index v s c s' H.
  - cbn [length Nat.add repeat]. rewrite advance_len_irrelevant.
    apply after_loop_resumed. exact H.
  - cbn [sync_loop] in H. unfold bind at 1 2 in H. cbn [setSyncProgress] in H.
    unfold bind at 1, try_switch in H. cbn [advance length].
    destruct (executor_for env (type a)) as [exec|] eqn:He.
    + cbn [Nat.add repeat]. unfold interleave. cbn [fold_left step resume fst snd].
      rewrite He. apply IH. exact H.
    + apply one_more_resume, IH. exact H.
Qed.

(** Run with nothing interleaved, the resumptions of a drain end where
    [syncNow] ends. *)
Lemma syncNow_is_its_resumptions env failedQueue_c s c s' :
  syncNow env failedQueue_c s = (c, s') ->
  interleave env (repeat Resume (length (default [] (idb s !! QUEUE_KEY)) + 3))
    (AwaitGet failedQueue_c, s) = (Settled c, s').
Proof.
  rewrite syncNow_unfold. rewrite Nat.add_succ_r.
  unfold interleave at 1. cbn [repeat fold_left step resume fst snd].
  destruct (idb s !! QUEUE_KEY) as [[|a batch]|]; cbn [default].
  - intros [= <- <-]. apply resumes_of_settled.
  - intros H. apply loop_resumed. exact H.
  - intros [= <- <-]. apply resumes_of_settled.
Qed.

(** ** The theorems at concrete inputs *)

Lemma addOfflineAction_appends_and_persists_witness :
  set_rejects env_offline QUEUE_KEY = false
  /\ queue (enqueue env_offline "a-1" 1000 "SUBMIT_ACTIVITY" "activity 1" (mount ∅))
     = [] ++ [newAction "a-1" "SUBMIT_ACTIVITY" "activity 1" 1000]
  /\ length (queue (enqueue env_offline "a-1" 1000 "SUBMIT_ACTIVITY" "activity 1" (mount ∅)))
     = 1%nat.
Proof.
  split; [reflexivity|].
  pose proof (addOfflineAction_appends_and_persists env_offline (mount ∅)
                "a-1" 1000 "SUBMIT_ACTIVITY" "activity 1" eq_refl) as H.
  cbv zeta in H. destruct H as (_ & _ & Hq & _ & Hlen & _).
  split; [exact Hq|exact Hlen].
Defined.

Lemma retryFailedAction_moves_to_pending_witness :
  set_rejects env_offline QUEUE_KEY = false
  /\ set_rejects env_offline FAILED_QUEUE_KEY = false
  /\ "a-1" ∈ ids (failedQueue one_dead)
  /\ ("zz-9" ∉ ids (failedQueue one_dead))
  /\ (exists a s',
        retryFailedAction env_offline (queue one_dead) (failedQueue one_dead) "a-1" one_dead
        = (Returned true, s')
        /\ queue s' = queue one_dead ++ [reset a] /\ retryCount (reset a) = Some 0)
  /\ retryFailedAction env_offline (queue one_dead) (failedQueue one_dead) "zz-9" one_dead
     = (Returned false, one_dead).
Proof.
  assert (Hin : "a-1" ∈ ids (failedQueue one_dead)) by (vm_compute; left).
  assert (Hout : "zz-9" ∉ ids (failedQueue one_dead))
    by (apply (bool_decide_unpack _); vm_compute; exact I).
  split; [reflexivity|]. split; [reflexivity|]. split; [exact Hin|]. split; [exact Hout|].
  destruct (retryFailedAction_moves_to_pending env_offline one_dead "a-1" eq_refl eq_refl)
    as [Hpresent _].
  destruct (retryFailedAction_moves_to_pending env_offline one_dead "zz-9" eq_refl eq_refl)
    as [_ Habsent].
  split; [|exact (Habsent Hout)].
  destruct (Hpresent Hin) as (a & s' & _ & _ & Hrun & Hq & _ & _ & Hrc & _).
  exists a, s'. split; [exact Hrun|]. split; [exact Hq|exact Hrc].
Defined.

Lemma syncNow_store_failure_leaves_flag_witness :
  idb one_pending !! QUEUE_KEY = Some (queue one_pending)
  /\ queue one_pending <> []
  /\ set_rejects env_store_full QUEUE_KEY = true
  /\ exists key s',
       syncNow env_store_full [] one_pending = (Thrown key, s')
       /\ isSyncing s' = true
       /\ syncProgress s' = Some (mkProgress 1 1).
Proof.
  assert (H : idb one_pending !! QUEUE_KEY = Some (queue one_pending)) by reflexivity.
  assert (Hne : queue one_pending <> []) by discriminate.
  split; [exact H|]. split; [exact Hne|]. split; [reflexivity|].
  destruct (syncNow_store_failure_leaves_flag env_store_full [] one_pending
              (queue one_pending) H Hne) as [Hthrow _].
  exact (Hthrow (or_introl eq_refl)).
Defined.

Lemma drain_of_A_B_C_witness :
  queue (mount ∅) = []
  /\ set_rejects env_notices_down QUEUE_KEY = false
  /\ outcome env_notices_down 0 (newAction "a-1" "SUBMIT_ACTIVITY" "activity 1" 1000) = Resolved
  /\ outcome env_notices_down 1 (newAction "b-2" "POST_NOTICE" "notice 9" 2000)
     = Rejected (Some "permission-denied")
  /\ outcome env_notices_down 2 (newAction "c-3" "GRADE_ACTIVITY" "grade 8" 3000) = Resolved
  /\ exists s',
       syncNow env_notices_down []
         (enqueue env_notices_down "c-3" 3000 "GRADE_ACTIVITY" "grade 8"
            (enqueue env_notices_down "b-2" 2000 "POST_NOTICE" "notice 9"
               (enqueue env_notices_down "a-1" 1000 "SUBMIT_ACTIVITY" "activity 1" (mount ∅))))
       = (Returned tt, s')
       /\ queue s' = [mkAction "b-2" "POST_NOTICE" "notice 9" 2000 (Some 1)
                                (Some "permission-denied")]
       /\ failedQueue s' = []
       /\ toasts s' = [ToastSuccess 2].
Proof.
  do 5 (split; [reflexivity|]).
  pose proof (drain_of_A_B_C env_notices_down (mount ∅) "a-1" "b-2" "c-3" 1000 2000 3000
                "SUBMIT_ACTIVITY" "POST_NOTICE" "GRADE_ACTIVITY"
                "activity 1" "notice 9" "grade 8" (Some "permission-denied")
                eq_refl eq_refl eq_refl eq_refl eq_refl) as H.
  cbv zeta in H. destruct H as (_ & s' & Hrun & Hq & _ & Hf & _ & Ht & _).
  exists s'. split; [exact Hrun|]. split; [exact Hq|]. split; [exact Hf|exact Ht].
Defined.

Lemma unmatched_type_counts_as_success_witness :
  executor_for env_offline (type (newAction "x-1" "DELETE_NOTICE" "notice 7" 1000)) = None
  /\ idb one_unmatched !! QUEUE_KEY = Some [newAction "x-1" "DELETE_NOTICE" "notice 7" 1000]
  /\ syncNow env_offline [] one_unmatched
     = (Returned tt,
        mkState [] (failedQueue one_unmatched) false None
                (<[QUEUE_KEY := []]> (idb one_unmatched))
                (toasts one_unmatched ++ [ToastSuccess 1]) (invoked one_unmatched)).
Proof.
  split; [reflexivity|]. split; [reflexivity|].
  destruct (unmatched_type_counts_as_success env_offline
              (newAction "x-1" "DELETE_NOTICE" "notice 7" 1000) eq_refl) as [_ Hdrain].
  exact (Hdrain [] one_unmatched [] eq_refl (List.Forall_nil _) eq_refl).
Defined.


Lemma drain_writes_back_only_its_snapshot_witness :
  idb one_pending !! QUEUE_KEY = Some (queue one_pending)
  /\ queue one_pending <> []
  /\ set_rejects env_offline QUEUE_KEY = false
  /\ (exists fq len index a rest v,
        fst (interleave env_offline
               (Resume :: [Enqueue "b-2" 2000 "POST_NOTICE" "notice 9"])
               (AwaitGet [], one_pending))
        = AwaitExecutor fq len index a rest v)
  /\ exists c s',
       interleave env_offline (repeat Resume 2)
         (interleave env_offline
            (Resume :: [Enqueue "b-2" 2000 "POST_NOTICE" "notice 9"])
            (AwaitGet [], one_pending))
       = (Settled c, s')
       /\ queue s' = kept_all env_offline 0 (queue one_pending).
Proof.
  assert (H : idb one_pending !! QUEUE_KEY = Some (queue one_pending)) by reflexivity.
  assert (Hne : queue one_pending <> []) by discriminate.
  assert (Hmid : exists fq len index a rest v,
             fst (interleave env_offline
                    (Resume :: [Enqueue "b-2" 2000 "POST_NOTICE" "notice 9"])
                    (AwaitGet [], one_pending))
             = AwaitExecutor fq len index a rest v)
    by (vm_compute; eauto 10).
  split; [exact H|]. split; [exact Hne|]. split; [reflexivity|]. split; [exact Hmid|].
  destruct (drain_writes_back_only_its_snapshot env_offline [] one_pending (queue one_pending)
              [Enqueue "b-2" 2000 "POST_NOTICE" "notice 9"] H Hne eq_refl Hmid)
    as [_ Hend].
  eexists _, _. split; [vm_compute; reflexivity|].
  refine (proj1 (Hend 2%nat (Returned tt) _ _)). vm_compute. reflexivity.
Defined.

Lemma failing_action_is_dead_lettered_by_fourth_drain_witness :
  pending_only one_pending (newAction "a-1" "SUBMIT_ACTIVITY" "activity 1" 1000)
  /\ Forall (fun env => writable env
                        /\ rejects env (newAction "a-1" "SUBMIT_ACTIVITY" "activity 1" 1000))
            [env_offline; env_offline; env_offline; env_offline]
  /\ exists x, x ∈ failedQueue one_dead
               /\ same_action x (newAction "a-1" "SUBMIT_ACTIVITY" "activity 1" 1000)
               /\ retryCount x = Some 3
               /\ "a-1" ∉ ids (queue one_dead).
Proof.
  assert (Hp : pending_only one_pending (newAction "a-1" "SUBMIT_ACTIVITY" "activity 1" 1000)).
  { split; [reflexivity|]. split; [vm_compute; left|].
    split; apply (bool_decide_unpack _); vm_compute; exact I. }
  assert (Hoff : writable env_offline
                 /\ rejects env_offline (newAction "a-1" "SUBMIT_ACTIVITY" "activity 1" 1000)).
  { split; [split; reflexivity|]. intros index. eexists. reflexivity. }
  assert (Hall : Forall (fun env => writable env
                   /\ rejects env (newAction "a-1" "SUBMIT_ACTIVITY" "activity 1" 1000))
                   [env_offline; env_offline; env_offline; env_offline]).
  { repeat (constructor; [exact Hoff|]). constructor. }
  split; [exact Hp|]. split; [exact Hall|].
  destruct (failing_action_is_dead_lettered_by_fourth_drain
              [env_offline; env_offline; env_offline; env_offline] one_pending
              (newAction "a-1" "SUBMIT_ACTIVITY" "activity 1" 1000) Hp eq_refl Hall)
    as [_ Hfour].
  exact (Hfour eq_refl).
Defined.

(** ** The model on small runs *)

Example online_drain_empties_pending :
  exists s', syncNow env_online [] one_pending = (Returned tt, s')
             /\ queue s' = [] /\ failedQueue s' = []
             /\ idb s' !! QUEUE_KEY = Some []
             /\ toasts s' = [ToastSuccess 1]
             /\ ids (invoked s') = ["a-1"].
Proof. eexists. split; [vm_compute; reflexivity|]. repeat split. Qed.

Example discard_removes_dead_letter :
  ids (failedQueue one_dead) = ["a-1"]
  /\ failedQueue (discard env_offline "a-1" one_dead) = []
  /\ idb (discard env_offline "a-1" one_dead) !! FAILED_QUEUE_KEY = Some []
  /\ queue (discard env_offline "a-1" one_dead) = [].
Proof. repeat split. Qed.

Example reload_reproduces_queues :
  let reloaded := after loadQueues (mount (idb before_retry)) in
  queue reloaded = queue before_retry /\ failedQueue reloaded = failedQueue before_retry.
Proof. cbv zeta. split; vm_compute; reflexivity. Qed.

Example store_full_enqueue_is_not_persisted :
  addOfflineAction env_store_full [] "a-1" 1000 "SUBMIT_ACTIVITY" "activity 1" (mount ∅)
  = (Thrown QUEUE_KEY,
     mkState [newAction "a-1" "SUBMIT_ACTIVITY" "activity 1" 1000] [] false None ∅ [] []).
Proof. reflexivity. Qed.

(** ** The store as a mirror of memory *)



(** On a mirrored state, with writes accepted, a call of [syncNow] either
    finds nothing to do or ends in the closed form over the pending queue. *)
Lemma syncNow_on_mirrored env failedQueue_c s :
  mirrored s -> writable env ->
  after (syncNow env failedQueue_c) s =
  match queue s with
  | [] => s
  | _ :: _ => drained env failedQueue_c (queue s) s
  end.
Proof.
  intros [Hq _] [HQ HF]. unfold after.
  destruct (idb s !! QUEUE_KEY) as [batch|] eqn:H.
  - assert (Hb : batch = queue s) by exact Hq. rewrite <- Hb.
    destruct batch as [|a q].
    + rewrite (syncNow_idle env _ s (or_intror H)). reflexivity.
    + rewrite (syncNow_returns env _ s (a :: q) H); [reflexivity|discriminate|exact HQ|].
      right. exact HF.
  - assert (Hb : [] = queue s) by exact Hq. rewrite <- Hb.
    rewrite (syncNow_idle env _ s (or_introl H)). reflexivity.
Qed.

Lemma drained_mirrored env failedQueue_c batch s :
  default [] (idb s !! FAILED_QUEUE_KEY) = failedQueue s ->
  mirrored (drained env failedQueue_c batch s).
Proof.
  intros Hf. unfold mirrored, drained. cbn [queue failedQueue idb].
  destruct (newFailed (batch_vars env batch)).
  - rewrite lookup_insert_eq, lookup_insert_ne by discriminate. split; [reflexivity|exact Hf].
  - rewrite lookup_insert_ne, !lookup_insert_eq by discriminate. split; reflexivity.
Qed.

Lemma syncNow_keeps_mirror env failedQueue_c s :
  mirrored s -> writable env -> mirrored (after (syncNow env failedQueue_c) s).
Proof.
  intros Hm Hw. rewrite (syncNow_on_mirrored env failedQueue_c s Hm Hw).
  destruct (queue s); [exact Hm|]. apply drained_mirrored, Hm.
Qed.

(** What [retry] is made of: nothing for an absent id; otherwise the move,
    then the drain with the closure of the same render. *)
Lemma retry_cases env actionId s :
  writable env ->
  ((actionId ∉ ids (failedQueue s)) /\ retry env actionId s = s)
  \/ (exists a,
        a ∈ failedQueue s /\ id a = actionId
        /\ retry env actionId s =
           after (syncNow env (failedQueue s))
             (mkState (queue s ++ [reset a])
                      (filter (fun x => id x <> actionId) (failedQueue s))
                      (isSyncing s) (syncProgress s)
                      (<[FAILED_QUEUE_KEY := filter (fun x => id x <> actionId) (failedQueue s)]>
                         (<[QUEUE_KEY := queue s ++ [reset a]]> (idb s)))
                      (toasts s) (invoked s))).
Proof.
  intros [HQ HF]. unfold retry, after, retryFailedAction_and_sync, bind, retryFailedAction.
  destruct (decide (actionId ∈ ids (failedQueue s))) as [Hin|Hout].
  - right. destruct (find_by_id_present _ _ Hin) as (a & Hfind & Ha & Hid).
    exists a. split; [exact Ha|]. split; [exact Hid|].
    rewrite Hfind. run_async. rewrite HQ. run_async. rewrite HF. reflexivity.
  - left. split; [exact Hout|]. rewrite (find_by_id_absent _ _ Hout). reflexivity.
Qed.

Lemma apply_op_keeps_mirror env o s :
  writable env -> mirrored s -> mirrored (apply_op env o s).
Proof.
  intros Hw Hm. destruct o as [uuid now ty p| |actionId|actionId|]; cbn [apply_op].
  - destruct Hw as [HQ _], Hm as [_ Hf]. unfold mirrored, enqueue, addOfflineAction.
    run_async. rewrite HQ. cbn [snd queue failedQueue idb].
    rewrite lookup_insert_eq, lookup_insert_ne by discriminate. split; [reflexivity|exact Hf].
  - apply syncNow_keeps_mirror; assumption.
  - destruct (retry_cases env actionId s Hw) as [[_ ->]|(a & _ & _ & ->)]; [exact Hm|].
    apply syncNow_keeps_mirror; [|exact Hw].
    unfold mirrored. cbn [queue failedQueue idb].
    rewrite lookup_insert_eq, lookup_insert_ne, lookup_insert_eq by discriminate.
    split; reflexivity.
  - destruct Hw as [_ HF], Hm as [Hq _]. unfold mirrored, discard, discardFailedAction.
    run_async. rewrite HF. cbn [snd queue failedQueue idb].
    rewrite lookup_insert_eq, lookup_insert_ne by discriminate. split; [exact Hq|reflexivity].
  - cbn [handleOnline sync]. apply syncNow_keeps_mirror; assumption.
Qed.



(** ** Retry counts stay in range *)

Lemma kept_all_in_range env rest : forall index,
  Forall (fun a => exists c, retryCount a = Some c /\ 0 <= c <= MAX_RETRIES) rest ->
  Forall (fun a => exists c, retryCount a = Some c /\ 0 <= c <= MAX_RETRIES)
         (kept_all env index rest).
Proof.
  intros index Hall. apply Forall_forall. intros x Hx.
  destruct (elem_of_kept_all _ _ _ _ Hx) as (j & b & m & Hj & _ & Hlt & ->).
  rewrite Forall_forall in Hall.
  destruct (Hall b) as (c & Hc & Hr); [apply list_elem_of_lookup; eauto|].
  rewrite Hc in Hlt. cbn in Hlt. exists (c + 1). cbn [bump retryCount]. rewrite Hc. cbn.
  split; [reflexivity|lia].
Qed.

Lemma dead_all_at_ceiling env rest : forall index,
  Forall (fun a => exists c, retryCount a = Some c /\ 0 <= c <= MAX_RETRIES) rest ->
  Forall (fun a => retryCount a = Some MAX_RETRIES) (dead_all env index rest).
Proof.
  intros index Hall. apply Forall_forall. intros x Hx.
  destruct (elem_of_dead_all _ _ _ _ Hx) as (j & b & m & Hj & _ & Hge & ->).
  rewrite Forall_forall in Hall.
  destruct (Hall b) as (c & Hc & Hr); [apply list_elem_of_lookup; eauto|].
  rewrite Hc in Hge. cbn in Hge. cbn [bury retryCount]. rewrite Hc. f_equal. lia.
Qed.

Lemma syncNow_keeps_counts env failedQueue_c s :
  mirrored s -> writable env -> counts_in_range s ->
  Forall (fun a => retryCount a = Some MAX_RETRIES) failedQueue_c ->
  counts_in_range (after (syncNow env failedQueue_c) s).
Proof.
  intros Hm Hw [Hq Hf] Hc. rewrite (syncNow_on_mirrored env failedQueue_c s Hm Hw).
  destruct (queue s) as [|a q] eqn:E; [split; [rewrite E; exact Hq|exact Hf]|].
  rewrite <- E in *. unfold counts_in_range, drained. rewrite batch_vars_split.
  cbn [queue failedQueue remainingQueue newFailed]. split.
  - apply kept_all_in_range, Hq.
  - pose proof (dead_all_at_ceiling env (queue s) 0%nat Hq) as Hd.
    destruct (dead_all env 0 (queue s)); [exact Hf|].
    apply Forall_app. split; assumption.
Qed.

Lemma apply_op_keeps_counts env o s :
  writable env -> mirrored s -> counts_in_range s -> counts_in_range (apply_op env o s).
Proof.
  intros Hw Hm Hc. destruct o as [uuid now ty p| |actionId|actionId|]; cbn [apply_op].
  - destruct Hc as [Hq Hf]. unfold counts_in_range, enqueue, addOfflineAction. run_async.
    destruct (set_rejects env QUEUE_KEY); cbn [snd queue failedQueue];
      (split; [|exact Hf]); apply Forall_app; (split; [exact Hq|]);
      repeat constructor; exists 0; cbn; (split; [reflexivity|unfold MAX_RETRIES; lia]).
  - apply syncNow_keeps_counts; try assumption. apply Hc.
  - destruct (retry_cases env actionId s Hw) as [[_ ->]|(a & _ & _ & ->)]; [exact Hc|].
    destruct Hc as [Hq Hf]. apply syncNow_keeps_counts; try assumption.
    + unfold mirrored. cbn [queue failedQueue idb].
      rewrite lookup_insert_eq, lookup_insert_ne, lookup_insert_eq by discriminate.
      split; reflexivity.
    + unfold counts_in_range. cbn [queue failedQueue]. split.
      * apply Forall_app. split; [exact Hq|]. repeat constructor. exists 0. cbn.
        split; [reflexivity|unfold MAX_RETRIES; lia].
      * apply Forall_forall. intros x Hx. apply list_elem_of_filter in Hx as [_ Hx].
        rewrite Forall_forall in Hf. exact (Hf x Hx).
  - destruct Hc as [Hq Hf]. unfold counts_in_range, discard, discardFailedAction. run_async.
    assert (Hf' : Forall (fun a => retryCount a = Some MAX_RETRIES)
                    (filter (fun a => id a <> actionId) (failedQueue s))).
    { apply Forall_forall. intros x Hx. apply list_elem_of_filter in Hx as [_ Hx].
      rewrite Forall_forall in Hf. exact (Hf x Hx). }
    destruct (set_rejects env FAILED_QUEUE_KEY); cbn [snd queue failedQueue];
      split; assumption.
  - cbn [handleOnline sync]. apply syncNow_keeps_counts; try assumption. constructor.
Qed.

(** X2. Retry counts stay in range.  From the freshly mounted component,
    after any sequence of calls (enqueue, drain, manual retry, discard,
    going online) whose writes the store accepts, every pending action has a
    [retryCount] between 0 and [MAX_RETRIES], and every dead-lettered action
    has [retryCount] exactly [MAX_RETRIES]. *)
Theorem retry_counts_stay_in_range steps :
  Forall (fun st => writable (fst st)) steps ->
  let s := run_ops steps (mount ∅) in
  (forall a, a ∈ queue s -> exists c, retryCount a = Some c /\ 0 <= c <= MAX_RETRIES)
  /\ (forall a, a ∈ failedQueue s -> retryCount a = Some MAX_RETRIES).
Proof.
  intros Hall s.
  assert (Hinv : forall steps s0, Forall (fun st => writable (fst st)) steps ->
                   mirrored s0 -> counts_in_range s0 -> counts_in_range (run_ops steps s0)).
  { clear. induction steps as [|[env o] steps IH]; intros s0 Hall Hm Hc; cbn [run_ops];
      [exact Hc|].
    apply Forall_cons in Hall as [Hw Hall]. apply IH; [exact Hall| |].
    - apply apply_op_keeps_mirror; assumption.
    - apply apply_op_keeps_counts; assumption. }
  destruct (Hinv steps (mount ∅) Hall) as [Hq Hf].
  - split; reflexivity.
  - split; constructor.
  - subst s. rewrite Forall_forall in Hq, Hf. split; assumption.
Qed.

(** ** What a drain does to the counts and to the order *)

Lemma settled_count env rest : forall index,
  (synced_all env index rest + length (kept_all env index rest)
   + length (dead_all env index rest))%nat = length rest.
Proof.
  induction rest as [|a rest IH]; intros index; cbn [synced_all kept_all dead_all length];
    [reflexivity|].
  rewrite !length_app. specialize (IH (S index)).
  unfold synced, kept, dead. destruct (outcome env index a) as [|m]; cbn [length]; [lia|].
  destruct (default 0 (retryCount a) <? MAX_RETRIES); cbn [length]; lia.
Qed.

(** X3. A drain accounts for every action of its batch exactly once.  For
    a drain called from the current render on a state whose store mirrors
    memory, writes accepted: the actions still pending, plus the
    dead-lettered ones, plus the number of actions counted as synchronised,
    is what pending plus dead-letter was before; and when that number is
    positive it is the number the success toast reports. *)
Theorem drain_accounts_for_every_action env s :
  mirrored s -> writable env ->
  let n := successCount (batch_vars env (queue s)) in
  (length (queue (drain env s)) + length (failedQueue (drain env s)) + n)%nat
  = (length (queue s) + length (failedQueue s))%nat
  /\ ((0 < n)%nat -> last (toasts (drain env s)) = Some (ToastSuccess n)).
Proof.
  intros Hm Hw n. subst n. unfold drain. rewrite (syncNow_on_mirrored env _ s Hm Hw).
  destruct (queue s) as [|a q] eqn:E.
  - rewrite E. cbn. split; [lia|intros H; inversion H].
  - rewrite <- E in *. clear E a q. unfold drained. rewrite batch_vars_split.
    cbn [queue failedQueue toasts successCount remainingQueue newFailed].
    pose proof (settled_count env (queue s) 0%nat) as Hcount. split.
    + destruct (dead_all env 0 (queue s)); cbn [length] in *; rewrite ?length_app;
        cbn [length]; lia.
    + intros Hpos. apply Nat.ltb_lt in Hpos. rewrite Hpos.
      rewrite !app_assoc. apply last_snoc.
Qed.

Lemma resolved_batch env rest : forall index,
  (forall i a, a ∈ rest -> outcome env i a = Resolved) ->
  kept_all env index rest = [] /\ dead_all env index rest = []
  /\ synced_all env index rest = length rest.
Proof.
  induction rest as [|a rest IH]; intros index Hall; cbn; [repeat split|].
  destruct (IH (S index)) as (Hk & Hd & Hs).
  { intros i b Hb. apply Hall. right. exact Hb. }
  rewrite (Hall index a ltac:(left)), Hk, Hd, Hs. repeat split.
Qed.

(** X4. When every executor call of a drain resolves, the drain returns
    with the pending queue empty, in memory and in the store, the
    dead-letter queue and its stored copy untouched, the flag and the
    progress cleared, and one success toast counting the whole batch. *)
Theorem drain_with_all_resolved_empties_pending env failedQueue_c s batch :
  idb s !! QUEUE_KEY = Some batch -> batch <> [] ->
  set_rejects env QUEUE_KEY = false ->
  (forall i a, a ∈ batch -> outcome env i a = Resolved) ->
  syncNow env failedQueue_c s =
  (Returned tt,
   mkState [] (failedQueue s) false None (<[QUEUE_KEY := []]> (idb s))
           (toasts s ++ [ToastSuccess (length batch)])
           (invoked s ++ List.filter (has_executor env) batch)).
Proof.
  intros H Hne HQ Hall. destruct (resolved_batch env batch 0%nat Hall) as (Hk & Hd & Hs).
  assert (Hv : batch_vars env batch = mkVars (length batch) [] []).
  { rewrite batch_vars_split, Hk, Hd, Hs. reflexivity. }
  rewrite (syncNow_returns env failedQueue_c s batch H Hne HQ); [|left; rewrite Hv; reflexivity].
  unfold drained. rewrite Hv. cbn [remainingQueue newFailed successCount].
  destruct batch as [|a batch]; [congruence|]. reflexivity.
Qed.

Lemma ids_dead_all_sublist env rest : forall index,
  ids (dead_all env index rest) `sublist_of` ids rest.
Proof.
  induction rest as [|a rest IH]; intros index; cbn [dead_all]; [constructor|].
  rewrite ids_app. unfold dead.
  destruct (outcome env index a) as [|m]; cbn [ids fmap list_fmap app].
  - apply sublist_cons, IH.
  - destruct (default 0 (retryCount a) <? MAX_RETRIES); cbn [fmap list_fmap app bury id].
    + apply sublist_cons, IH.
    + apply sublist_skip, IH.
Qed.

(** X5. Order is kept by a drain.  For a drain called from the current
    render on a mirrored state, writes accepted: the ids still pending are
    a subsequence of the ids that were pending (survivors keep their
    relative order, nothing new appears); the dead-letter queue is the old
    one followed by the newly dead-lettered actions, whose ids are also a
    subsequence of the batch, so no earlier dead letter is removed or
    reordered. *)
Theorem drain_keeps_order env s :
  mirrored s -> writable env ->
  ids (queue (drain env s)) `sublist_of` ids (queue s)
  /\ exists newly,
       failedQueue (drain env s) = failedQueue s ++ newly
       /\ ids newly `sublist_of` ids (queue s).
Proof.
  intros Hm Hw. unfold drain. rewrite (syncNow_on_mirrored env _ s Hm Hw).
  destruct (queue s) as [|a q] eqn:E.
  - rewrite E. split; [reflexivity|]. exists []. rewrite app_nil_r.
    split; [reflexivity|constructor].
  - rewrite <- E in *. clear E a q. unfold drained. rewrite batch_vars_split.
    cbn [queue failedQueue idb remainingQueue newFailed].
    split; [apply ids_kept_all_sublist|].
    pose proof (ids_dead_all_sublist env (queue s) 0%nat) as Hsub.
    destruct (dead_all env 0 (queue s)) as [|d ds].
    + exists []. rewrite app_nil_r. split; [reflexivity|exact Hsub].
    + exists (d :: ds). split; [reflexivity|exact Hsub].
Qed.

(** ** Discard *)

Lemma filter_other_ids_fixpoint (l : list OfflineAction) actionId :
  actionId ∉ ids l -> filter (fun a => id a <> actionId) l = l.
Proof.
  induction l as [|x l IH]; intros Hout; [reflexivity|].
  cbn in Hout. apply not_elem_of_cons in Hout as [Hne Hout].
  rewrite filter_cons_True by congruence. f_equal. apply IH, Hout.
Qed.

(** X6. [discardFailedAction], called from the current render with the
    write accepted, removes from the dead-letter queue exactly the entries
    with the given id, keeps the others in their order, and stores the
    result; it touches neither the pending queue nor its stored copy.  When
    no entry has the id, the dead-letter queue is unchanged.  Discarding the
    same id a second time changes nothing more. *)
Theorem discardFailedAction_removes_only_that_id env s actionId :
  set_rejects env FAILED_QUEUE_KEY = false ->
  let s' := discard env actionId s in
  discardFailedAction env (failedQueue s) actionId s = (Returned tt, s')
  /\ (forall x, x ∈ failedQueue s' <-> x ∈ failedQueue s /\ id x <> actionId)
  /\ failedQueue s' `sublist_of` failedQueue s
  /\ idb s' !! FAILED_QUEUE_KEY = Some (failedQueue s')
  /\ queue s' = queue s
  /\ idb s' !! QUEUE_KEY = idb s !! QUEUE_KEY
  /\ (actionId ∉ ids (failedQueue s) -> failedQueue s' = failedQueue s)
  /\ discard env actionId s' = s'.
Proof.
  intros HF s'. subst s'. unfold discard, discardFailedAction. run_async.
  rewrite HF. cbn [snd queue failedQueue idb]. run_async. rewrite ?HF.
  cbn [snd queue failedQueue idb isSyncing syncProgress toasts invoked].
  split; [reflexivity|]. split.
  { intros x. rewrite list_elem_of_filter. tauto. }
  split; [apply sublist_filter|]. split; [apply lookup_insert_eq|].
  split; [reflexivity|]. split; [apply lookup_insert_ne; discriminate|].
  split; [apply filter_other_ids_fixpoint|].
  rewrite (filter_other_ids_fixpoint _ actionId (filter_drops_id _ _)).
  rewrite insert_insert_eq. reflexivity.
Qed.

(** ** The online handler *)

(** X7. The drain started by the online handler runs with the empty
    dead-letter list of the first render.  With writes accepted and [batch]
    the stored pending queue: the handler sets [isOnline]; if the drain
    dead-letters nothing, the dead-letter queue is untouched; if it
    dead-letters at least one action, the dead-letter queue becomes, in
    memory and in the store, exactly the newly dead-lettered actions, so
    that an earlier dead letter whose id is not in the batch is no longer
    in it. *)
Theorem handleOnline_replaces_dead_letters env p batch :
  idb (sync p) !! QUEUE_KEY = Some batch -> writable env ->
  let p' := handleOnline env p in
  isOnline p' = true
  /\ (dead_all env 0 batch = [] -> failedQueue (sync p') = failedQueue (sync p))
  /\ (dead_all env 0 batch <> [] ->
      failedQueue (sync p') = dead_all env 0 batch
      /\ idb (sync p') !! FAILED_QUEUE_KEY = Some (dead_all env 0 batch)
      /\ forall x, x ∈ failedQueue (sync p) -> id x ∉ ids batch ->
                   x ∉ failedQueue (sync p')).
Proof.
  intros H [HQ HF] p'. subst p'. unfold handleOnline. cbn [sync isOnline].
  split; [reflexivity|]. unfold after.
  destruct batch as [|a batch].
  - rewrite (syncNow_idle env [] (sync p) (or_intror H)). cbn.
    split; [reflexivity|]. intros Hne. congruence.
  - set (b := a :: batch) in *.
    rewrite (syncNow_returns env [] (sync p) b H ltac:(discriminate) HQ (or_intror HF)).
    unfold drained. rewrite batch_vars_split. cbn [snd failedQueue idb newFailed remainingQueue].
    split.
    + intros Hd. rewrite Hd. reflexivity.
    + intros Hd. destruct (dead_all env 0 b) as [|d ds] eqn:E; [congruence|].
      cbn [app]. split; [reflexivity|]. split; [apply lookup_insert_eq|].
      intros x _ Hfresh Hx. rewrite <- E in Hx.
      destruct (elem_of_dead_all _ _ _ _ Hx) as (j & y & m & Hj & _ & _ & ->).
      apply Hfresh. cbn [bury id]. unfold ids. apply list_elem_of_fmap_2.
      apply list_elem_of_lookup. eauto.
Qed.

(** ** A callback kept from an earlier render *)

(** X8. [addOfflineAction] appends to the pending queue its callback was
    built with, not to the pending queue of the moment.  Two calls made
    through the same callback (the second before the component has rendered
    again), writes accepted, leave the pending queue, in memory and in the
    store, as the captured queue followed by the second action only: the
    first action, if its id is new, is in neither. *)
Theorem same_callback_twice_keeps_second_only env queue_c s
    uuid1 now1 ty1 p1 uuid2 now2 ty2 p2 :
  set_rejects env QUEUE_KEY = false ->
  let s1 := after (addOfflineAction env queue_c uuid1 now1 ty1 p1) s in
  let s2 := after (addOfflineAction env queue_c uuid2 now2 ty2 p2) s1 in
  uuid1 ∈ ids (queue s1)
  /\ queue s2 = queue_c ++ [newAction uuid2 ty2 p2 now2]
  /\ idb s2 !! QUEUE_KEY = Some (queue_c ++ [newAction uuid2 ty2 p2 now2])
  /\ (uuid1 <> uuid2 -> uuid1 ∉ ids queue_c -> uuid1 ∉ ids (queue s2)).
Proof.
  intros HQ s1 s2. subst s1 s2. unfold addOfflineAction. run_async. rewrite HQ.
  cbn [snd queue idb]. run_async. rewrite ?HQ. cbn [snd queue idb].
  split.
  { rewrite ids_app. apply elem_of_app. right. left. }
  split; [reflexivity|]. split; [apply lookup_insert_eq|].
  intros Hne Hout Hin. rewrite ids_app in Hin. apply elem_of_app in Hin as [Hin|Hin].
  - exact (Hout Hin).
  - cbn in Hin. apply list_elem_of_singleton in Hin. congruence.
Qed.

(** ** A drain whose write of pending is rejected *)

(** X9. When the write of the remaining pending queue rejects, the
    executors have already been invoked for the batch, the in-memory
    pending queue holds the survivors, but the store still holds the batch
    as it was read.  A later call of [syncNow], writes accepted, therefore
    takes the same batch again and invokes the executors for every action
    of it a second time, including those already synchronised. *)
Theorem rejected_write_makes_next_drain_repeat env1 env2 fq1 fq2 s batch :
  idb s !! QUEUE_KEY = Some batch -> batch <> [] ->
  set_rejects env1 QUEUE_KEY = true -> writable env2 ->
  let s1 := after (syncNow env1 fq1) s in
  let s2 := after (syncNow env2 fq2) s1 in
  syncNow env1 fq1 s = (Thrown QUEUE_KEY, s1)
  /\ queue s1 = kept_all env1 0 batch
  /\ idb s1 = idb s
  /\ invoked s1 = invoked s ++ List.filter (has_executor env1) batch
  /\ invoked s2 = (invoked s ++ List.filter (has_executor env1) batch)
                  ++ List.filter (has_executor env2) batch
  /\ queue s2 = kept_all env2 0 batch.
Proof.
  intros H Hne HQ1 [HQ2 HF2] s1 s2. subst s1 s2.
  pose proof (syncNow_throws_queue env1 fq1 s batch H Hne HQ1) as Hs1.
  unfold after. rewrite Hs1. cbn [snd].
  unfold looped. run_async. rewrite batch_vars_split. cbn [remainingQueue].
  split; [reflexivity|]. split; [reflexivity|]. split; [reflexivity|]. split; [reflexivity|].
  match goal with
  | |- context [syncNow env2 fq2 ?st] =>
      rewrite (syncNow_returns env2 fq2 st batch H Hne HQ2 (or_intror HF2))
  end.
  unfold drained. rewrite batch_vars_split. cbn [snd invoked queue remainingQueue].
  split; reflexivity.
Qed.

(** ** The progress a drain shows *)

Lemma flags_after_idb_set env key v s :
  isSyncing (after (idb_set env key v) s) = isSyncing s
  /\ syncProgress (after (idb_set env key v) s) = syncProgress s.
Proof. unfold after, idb_set. destruct (set_rejects env key); split; reflexivity. Qed.

Lemma advance_shows_progress env failedQueue_c n : forall rest index v s,
  isSyncing s = true -> syncProgress s = Some (mkProgress index n) ->
  (index + length rest)%nat = n ->
  progress_shown n (advance env failedQueue_c n index rest v s).
Proof.
  induction rest as [|a rest IH]; intros index v s Hs Hp Hn; cbn [advance].
  - cbn [length] in Hn. rewrite Nat.add_0_r in Hn. subst index.
    unfold progress_shown. cbn [fst snd].
    destruct (flags_after_idb_set env QUEUE_KEY (remainingQueue v)
                (after (setQueue (remainingQueue v)) s)) as [-> ->].
    split; assumption.
  - cbn [length] in Hn. destruct (executor_for env (type a)) as [exec|].
    + unfold progress_shown. cbn [fst snd await_executor after setSyncProgress
        isSyncing syncProgress].
      repeat split; [lia|exact Hs].
    + apply IH.
      * exact Hs.
      * cbn [after setSyncProgress snd syncProgress]. rewrite Nat.add_1_r. reflexivity.
      * lia.
Qed.

Lemma finish_clears n v s : progress_shown n (finish v s).
Proof.
  unfold finish, progress_shown. cbn [fst snd].
  destruct (0 <? successCount v)%nat; split; reflexivity.
Qed.

Lemma step_shows_progress env n e ts :
  progress_shown n ts -> progress_shown n (step env e ts).
Proof.
  destruct ts as [t s], e as [|uuid now ty p]; cbn [step fst snd].
  - destruct t as [fq|fq len index a rest v|fq v|v|c]; unfold progress_shown at 1;
      cbn [fst snd resume].
    + intros [].
    + intros (-> & Hn & Hs & Hp). apply advance_shows_progress.
      * exact Hs.
      * rewrite Hp, Nat.add_1_r. reflexivity.
      * lia.
    + intros [Hs Hp]. destruct (set_rejects env QUEUE_KEY); [split; assumption|].
      destruct (newFailed v) as [|d ds].
      * apply finish_clears.
      * unfold progress_shown. cbn [fst snd].
        destruct (flags_after_idb_set env FAILED_QUEUE_KEY (fq ++ d :: ds)
                    (after (setFailedQueue (fq ++ d :: ds)) s)) as [-> ->].
        split; assumption.
    + intros [Hs Hp]. destruct (set_rejects env FAILED_QUEUE_KEY); [split; assumption|].
      apply finish_clears.
    + intros H. exact H.
  - unfold progress_shown. cbn [fst snd].
    assert (Hflags : isSyncing (after (addOfflineAction env (queue s) uuid now ty p) s)
                     = isSyncing s
                     /\ syncProgress (after (addOfflineAction env (queue s) uuid now ty p) s)
                        = syncProgress s).
    { unfold addOfflineAction. run_async.
      destruct (set_rejects env QUEUE_KEY); split; reflexivity. }
    destruct Hflags as [-> ->]. trivial.
Qed.

(** X10. What the indicator can read of a drain.  For a drain of a
    non-empty stored pending queue, with any enqueues arriving meanwhile: as
    long as the drain has not returned, [isSyncing] is true and
    [syncProgress] is [{current, total}] with [total] the size of the batch
    and [1 <= current <= total]; once it has returned, [isSyncing] is false
    and [syncProgress] is null. *)
Theorem drain_shows_progress_within_bounds env failedQueue_c s0 batch events :
  idb s0 !! QUEUE_KEY = Some batch -> batch <> [] ->
  let ts := interleave env (Resume :: events) (AwaitGet failedQueue_c, s0) in
  ((forall c, fst ts <> Settled (Returned c)) ->
   isSyncing (snd ts) = true
   /\ exists cur, syncProgress (snd ts) = Some (mkProgress cur (length batch))
                  /\ (1 <= cur <= length batch)%nat)
  /\ (forall c, fst ts = Settled (Returned c) ->
      isSyncing (snd ts) = false /\ syncProgress (snd ts) = None).
Proof.
  intros H Hne ts.
  assert (Hlen : (1 <= length batch)%nat) by (destruct batch; [congruence|cbn; lia]).
  assert (Hinv : progress_shown (length batch) ts).
  { subst ts. unfold interleave. cbn [fold_left step fst snd resume]. rewrite H.
    destruct batch as [|a batch]; [congruence|].
    set (b := a :: batch) in *.
    match goal with
    | |- progress_shown _ (fold_left _ _ ?start) =>
        assert (Hstart : progress_shown (length b) start)
    end.
    { apply advance_shows_progress; reflexivity. }
    revert Hstart. generalize (advance env failedQueue_c (length b) 0 b (mkVars 0 [] [])
      (after (setSyncProgress (Some (mkProgress 0 (length b))))
         (after (setIsSyncing true) s0))).
    induction events as [|e events IH]; intros start Hstart; cbn [fold_left];
      [exact Hstart|].
    apply IH, step_shows_progress, Hstart. }
  unfold progress_shown in Hinv. split.
  - intros Hnot. destruct (fst ts) as [fq|fq len index a rest v|fq v|v|[c|k]].
    + destruct Hinv.
    + destruct Hinv as (_ & Hn & Hs & Hp). split; [exact Hs|].
      exists (index + 1)%nat. split; [exact Hp|lia].
    + destruct Hinv as [Hs Hp]. split; [exact Hs|]. exists (length batch). split; [exact Hp|lia].
    + destruct Hinv as [Hs Hp]. split; [exact Hs|]. exists (length batch). split; [exact Hp|lia].
    + exfalso. exact (Hnot c eq_refl).
    + destruct Hinv as [Hs Hp]. split; [exact Hs|]. exists (length batch). split; [exact Hp|lia].
  - intros c Hc. rewrite Hc in Hinv. exact Hinv.
Qed.

(** ** Runs that keep ids unique *)



(** Drains that overlap can break uniqueness of ids without any manual
    retry: nothing in [syncNow] keeps a second drain from starting while a
    first one is in flight.  At the end of [overlapping_online_drains],
    "a-1" is both pending and dead-lettered. *)
Lemma overlapping_drains_leave_action_in_both_queues :
  unique_ids (drains [env_offline; env_offline] one_pending)
  /\ ids (queue overlapping_online_drains) = ["a-1"]
  /\ ids (failedQueue overlapping_online_drains) = ["a-1"]
  /\ ~ unique_ids overlapping_online_drains.
Proof.
  split; [apply (bool_decide_unpack _); vm_compute; exact I|].
  split; [vm_compute; reflexivity|]. split; [vm_compute; reflexivity|].
  apply (bool_decide_eq_false_1 _). vm_compute. reflexivity.
Qed.


(** ** The indicator *)

(** X12. [OfflineIndicator] never renders the modal of failed items open.
    The modal belongs to the branch taken when [failedCount > 0] and
    [showFailedModal] is false, and its [isOpen] prop is [showFailedModal]:
    whenever the failure alert is returned its modal is closed, and once
    [showFailedModal] is true the alert (with the retry and discard buttons
    inside its modal) is not returned at all.  When the syncing notice is
    returned, the total it shows is never 0. *)
Theorem OfflineIndicator_never_opens_modal failedCount pendingCount online syncing
    progress showFailedModal showBackOnline :
  let view := OfflineIndicator failedCount pendingCount online syncing progress
                showFailedModal showBackOnline in
  (forall n open, view = FailureAlert n open ->
     open = false /\ n = failedCount /\ (0 < failedCount)%nat)
  /\ (showFailedModal = true -> forall n open, view <> FailureAlert n open)
  /\ ((0 < failedCount)%nat -> showFailedModal = false ->
      view = FailureAlert failedCount false)
  /\ (forall cur tot sending, view = SyncingNotice cur tot sending -> (1 <= tot)%nat).
Proof.
  intros view. subst view. unfold OfflineIndicator.
  assert (Htotal : forall cur tot sending,
            (if negb online then OfflineNotice pendingCount
             else if syncing then
               SyncingNotice
                 match progress with Some p => current p | None => 0%nat end
                 match progress with
                 | Some (mkProgress _ (S t)) => S t
                 | _ => match pendingCount with 0%nat => 1%nat | S c => S c end
                 end
                 match progress with Some _ => true | None => false end
             else if showBackOnline then BackOnlineNotice else NoBanner)
            = SyncingNotice cur tot sending -> (1 <= tot)%nat).
  { intros cur tot sending. destruct online, syncing, showBackOnline; cbn [negb];
      try discriminate;
      destruct progress as [[c [|t]]|], pendingCount; intros [= <- <- <-]; lia. }
  assert (Hrest : forall n open,
            (if negb online then OfflineNotice pendingCount
             else if syncing then
               SyncingNotice
                 match progress with Some p => current p | None => 0%nat end
                 match progress with
                 | Some (mkProgress _ (S t)) => S t
                 | _ => match pendingCount with 0%nat => 1%nat | S c => S c end
                 end
                 match progress with Some _ => true | None => false end
             else if showBackOnline then BackOnlineNotice else NoBanner)
            <> FailureAlert n open).
  { intros n open. destruct online, syncing, showBackOnline; cbn [negb]; discriminate. }
  destruct (Nat.ltb_spec 0 failedCount) as [Hpos|Hzero], showFailedModal; cbn [andb negb].
  - split; [intros n open E; destruct (Hrest n open E)|].
    split; [intros _ n open; apply Hrest|].
    split; [discriminate|exact Htotal].
  - split; [intros n open [= <- <-]; repeat split; exact Hpos|].
    split; [discriminate|]. split; [reflexivity|]. discriminate.
  - split; [intros n open E; destruct (Hrest n open E)|].
    split; [intros _ n open; apply Hrest|].
    split; [discriminate|exact Htotal].
  - split; [intros n open E; destruct (Hrest n open E)|].
    split; [discriminate|].
    split; [intros Hpos; lia|exact Htotal].
Qed.

(** ** Submitting an activity while offline *)

(** X13. [handleActivitySubmit] with a signed-in user, no connection, and
    a read of the activity that does not throw.  Whatever pending queue the
    [addOfflineAction] callback it holds has captured, one action with the
    tag "SUBMIT_ACTIVITY", [retryCount] 0 and the drawn id is put at the end
    of that captured queue.  If the write is accepted, the "saved offline"
    toast is shown, the store holds the captured queue followed by the
    action, and the next [syncNow], whatever its closure and environment,
    invokes executors for the tagged actions of the captured queue and
    then, last, [executeSubmitActivity] on the payload of this action.  If
    the write is rejected, the error toast is shown and the store is
    unchanged although the action is in the in-memory pending queue; the
    next [syncNow] then invokes executors only for what the store held. *)
Theorem handleActivitySubmit_offline_then_drain
    serialize env queue_c user s snap uuid now activityId content :
  snap <> DocThrows ->
  let a := newAction uuid "SUBMIT_ACTIVITY"
             (serialize activityId content user
                match snap with DocData d => d | _ => "{}" end) now in
  let r := handleActivitySubmit serialize env queue_c (Some user) false snap
             uuid now activityId content s in
  queue (snd r) = queue_c ++ [a]
  /\ (set_rejects env QUEUE_KEY = false ->
      fst r = SavedOffline
      /\ idb (snd r) !! QUEUE_KEY = Some (queue_c ++ [a])
      /\ forall env' failedQueue_c,
           exists c s',
             syncNow env' failedQueue_c (snd r) = (c, s')
             /\ invoked s' = invoked s ++ List.filter has_case queue_c ++ [a]
             /\ outcome env' (length queue_c) a
                = executeSubmitActivity env' (payload a) (length queue_c))
  /\ (set_rejects env QUEUE_KEY = true ->
      fst r = OfflineSaveError
      /\ idb (snd r) = idb s
      /\ forall env' failedQueue_c,
           exists c s',
             syncNow env' failedQueue_c (snd r) = (c, s')
             /\ invoked s'
                = invoked s ++ List.filter has_case (default [] (idb s !! QUEUE_KEY))).
Proof.
  intros Hsnap a r. subst r. unfold handleActivitySubmit. cbn [negb].
  assert (Hrun : match snap with
                 | DocThrows => (OfflineSaveError, s)
                 | _ =>
                   match addOfflineAction env queue_c uuid now "SUBMIT_ACTIVITY"
                           (serialize activityId content user
                              match snap with DocData d => d | _ => "{}" end) s with
                   | (Returned _, s') => (SavedOffline, s')
                   | (Thrown _, s') => (OfflineSaveError, s')
                   end
                 end
                 = match addOfflineAction env queue_c uuid now "SUBMIT_ACTIVITY"
                           (serialize activityId content user
                              match snap with DocData d => d | _ => "{}" end) s with
                   | (Returned _, s') => (SavedOffline, s')
                   | (Thrown _, s') => (OfflineSaveError, s')
                   end).
  { destruct snap; [congruence|reflexivity|reflexivity]. }
  rewrite Hrun. clear Hrun. unfold addOfflineAction. run_async. fold a.
  destruct (set_rejects env QUEUE_KEY) eqn:HQ; cbn [fst snd queue idb].
  - split; [reflexivity|]. split; [discriminate|]. intros _.
    split; [reflexivity|]. split; [reflexivity|]. intros env' fq.
    match goal with |- context [syncNow env' fq ?st] => set (s1 := st) end.
    destruct (idb s !! QUEUE_KEY) as [[|b batch]|] eqn:E; cbn [default].
    + exists (Returned tt), s1. split; [apply syncNow_idle; right; exact E|].
      cbn. rewrite app_nil_r. reflexivity.
    + destruct (syncNow_invoked env' fq s1 (b :: batch) E ltac:(discriminate))
        as (c & s' & Hrun & Hlog).
      exists c, s'. split; [exact Hrun|]. rewrite Hlog, filter_has_executor. reflexivity.
    + exists (Returned tt), s1. split; [apply syncNow_idle; left; exact E|].
      cbn. rewrite app_nil_r. reflexivity.
  - split; [reflexivity|]. split; [|discriminate]. intros _.
    split; [reflexivity|]. split; [apply lookup_insert_eq|]. intros env' fq.
    match goal with |- context [syncNow env' fq ?st] => set (s1 := st) end.
    destruct (syncNow_invoked env' fq s1 (queue_c ++ [a]))
      as (c & s' & Hrun & Hlog).
    { apply lookup_insert_eq. }
    { destruct queue_c; discriminate. }
    exists c, s'. split; [exact Hrun|]. split.
    + rewrite Hlog, filter_has_executor, List.filter_app. reflexivity.
    + rewrite outcome_by_tag. reflexivity.
Qed.

(** ** Retrying a dead letter that fails again *)

(** X14. A manual retry is followed at once by a drain.  When the id is in
    the dead-letter queue, writes are accepted, and the executor of the
    retried action rejects again, then by the time that drain has ended the
    action is pending with [retryCount] 1 (not 0): the attempt made by the
    retry itself is already counted. *)
Theorem retry_that_fails_again_counts_one env s actionId :
  writable env ->
  actionId ∈ ids (failedQueue s) ->
  (forall x, x ∈ failedQueue s -> id x = actionId -> rejects env x) ->
  exists a x,
    a ∈ failedQueue s /\ id a = actionId
    /\ x ∈ queue (retry env actionId s)
    /\ same_action x a /\ retryCount x = Some 1
    /\ idb (retry env actionId s) !! QUEUE_KEY = Some (queue (retry env actionId s)).
Proof.
  intros Hw Hin Hrej.
  destruct (retry_cases env actionId s Hw) as [[Hout _]|(a & Ha & Hid & Hretry)];
    [contradiction|].
  destruct Hw as [HQ HF]. rewrite Hretry. unfold after.
  rewrite (syncNow_returns env (failedQueue s) _ (queue s ++ [reset a]));
    [|cbn [idb]; rewrite lookup_insert_ne by discriminate; apply lookup_insert_eq
     |destruct (queue s); discriminate|exact HQ|right; exact HF].
  - assert (Hr : rejects env (reset a)).
    { apply (rejects_same_action env (reset a) a); [repeat split|]. apply Hrej; assumption. }
    destruct (Hr (length (queue s))) as [m Hm].
    exists a, (bump (reset a) m). split; [exact Ha|]. split; [exact Hid|].
    unfold drained. rewrite batch_vars_split. cbn [snd queue idb remainingQueue newFailed].
    split.
    + apply (kept_all_intro env (queue s ++ [reset a]) 0%nat (length (queue s)) (reset a) m).
      * rewrite lookup_app_r by lia. rewrite Nat.sub_diag. reflexivity.
      * exact Hm.
      * cbn. unfold MAX_RETRIES. lia.
    + split; [repeat split|]. split; [reflexivity|].
      destruct (dead_all env 0 (queue s ++ [reset a])).
      * apply lookup_insert_eq.
      * rewrite lookup_insert_ne by discriminate. apply lookup_insert_eq.
Qed.

(** ** The further theorems at concrete inputs *)

Lemma writable_env_offline : writable env_offline.
Proof. split; reflexivity. Defined.

Lemma writable_env_online : writable env_online.
Proof. split; reflexivity. Defined.

Lemma writable_env_notices_down : writable env_notices_down.
Proof. split; reflexivity. Defined.

Lemma sample_run_with_retry_writable :
  Forall (fun st => writable (fst st)) sample_run_with_retry.
Proof.
  unfold sample_run_with_retry.
  repeat (constructor; [first [exact writable_env_offline | exact writable_env_online]|]).
  constructor.
Defined.


Lemma retry_counts_stay_in_range_witness :
  Forall (fun st => writable (fst st)) sample_run_with_retry
  /\ (forall a, a ∈ queue (run_ops sample_run_with_retry (mount ∅)) ->
        exists c, retryCount a = Some c /\ 0 <= c <= MAX_RETRIES)
  /\ (forall a, a ∈ failedQueue (run_ops sample_run_with_retry (mount ∅)) ->
        retryCount a = Some MAX_RETRIES).
Proof.
  split; [exact sample_run_with_retry_writable|].
  exact (retry_counts_stay_in_range sample_run_with_retry sample_run_with_retry_writable).
Defined.

Lemma before_retry_mirrored : mirrored before_retry.
Proof. split; vm_compute; reflexivity. Defined.

Lemma drain_accounts_for_every_action_witness :
  mirrored before_retry /\ writable env_offline
  /\ (length (queue (drain env_offline before_retry))
      + length (failedQueue (drain env_offline before_retry))
      + successCount (batch_vars env_offline (queue before_retry)))%nat
     = (length (queue before_retry) + length (failedQueue before_retry))%nat.
Proof.
  split; [exact before_retry_mirrored|]. split; [exact writable_env_offline|].
  exact (proj1 (drain_accounts_for_every_action env_offline before_retry
                  before_retry_mirrored writable_env_offline)).
Defined.

Lemma drain_with_all_resolved_empties_pending_witness :
  idb one_pending !! QUEUE_KEY = Some (queue one_pending)
  /\ queue one_pending <> []
  /\ set_rejects env_online QUEUE_KEY = false
  /\ (forall i a, a ∈ queue one_pending -> outcome env_online i a = Resolved)
  /\ syncNow env_online [] one_pending =
     (Returned tt,
      mkState [] (failedQueue one_pending) false None
              (<[QUEUE_KEY := []]> (idb one_pending))
              (toasts one_pending ++ [ToastSuccess (length (queue one_pending))])
              (invoked one_pending
                 ++ List.filter (has_executor env_online) (queue one_pending))).
Proof.
  assert (H : idb one_pending !! QUEUE_KEY = Some (queue one_pending)) by reflexivity.
  assert (Hne : queue one_pending <> []) by discriminate.
  assert (Hall : forall i a, a ∈ queue one_pending -> outcome env_online i a = Resolved).
  { intros i a _. unfold outcome, executor_for, env_online. cbn.
    repeat match goal with |- context [String.eqb ?x ?y] => destruct (String.eqb x y) end;
      reflexivity. }
  split; [exact H|]. split; [exact Hne|]. split; [reflexivity|]. split; [exact Hall|].
  exact (drain_with_all_resolved_empties_pending env_online [] one_pending
           (queue one_pending) H Hne eq_refl Hall).
Defined.

Lemma drain_keeps_order_witness :
  mirrored before_retry /\ writable env_offline
  /\ ids (queue (drain env_offline before_retry)) `sublist_of` ids (queue before_retry)
  /\ exists newly,
       failedQueue (drain env_offline before_retry) = failedQueue before_retry ++ newly
       /\ ids newly `sublist_of` ids (queue before_retry).
Proof.
  split; [exact before_retry_mirrored|]. split; [exact writable_env_offline|].
  exact (drain_keeps_order env_offline before_retry
           before_retry_mirrored writable_env_offline).
Defined.

Lemma discardFailedAction_removes_only_that_id_witness :
  set_rejects env_offline FAILED_QUEUE_KEY = false
  /\ discardFailedAction env_offline (failedQueue one_dead) "a-1" one_dead
     = (Returned tt, discard env_offline "a-1" one_dead)
  /\ discard env_offline "a-1" (discard env_offline "a-1" one_dead)
     = discard env_offline "a-1" one_dead.
Proof.
  split; [reflexivity|].
  pose proof (discardFailedAction_removes_only_that_id env_offline one_dead "a-1" eq_refl)
    as H.
  cbv zeta in H. destruct H as (Hrun & _ & _ & _ & _ & _ & _ & Hidem).
  split; [exact Hrun|exact Hidem].
Defined.

Lemma handleOnline_replaces_dead_letters_witness :
  idb before_retry !! QUEUE_KEY = Some (queue before_retry)
  /\ writable env_offline
  /\ dead_all env_offline 0 (queue before_retry) <> []
  /\ failedQueue (sync (handleOnline env_offline (mkProvider before_retry false)))
     = dead_all env_offline 0 (queue before_retry).
Proof.
  assert (H : idb before_retry !! QUEUE_KEY = Some (queue before_retry))
    by (vm_compute; reflexivity).
  assert (Hd : dead_all env_offline 0 (queue before_retry) <> [])
    by (vm_compute; discriminate).
  split; [exact H|]. split; [exact writable_env_offline|]. split; [exact Hd|].
  pose proof (handleOnline_replaces_dead_letters env_offline (mkProvider before_retry false)
                (queue before_retry) H writable_env_offline) as Hthm.
  cbv zeta in Hthm. destruct Hthm as (_ & _ & Hreplace).
  exact (proj1 (Hreplace Hd)).
Defined.

Lemma same_callback_twice_keeps_second_only_witness :
  set_rejects env_offline QUEUE_KEY = false
  /\ queue (after (addOfflineAction env_offline [] "b-2" 2000 "POST_NOTICE" "notice 9")
              (after (addOfflineAction env_offline [] "a-1" 1000 "SUBMIT_ACTIVITY"
                        "activity 1") (mount ∅)))
     = [] ++ [newAction "b-2" "POST_NOTICE" "notice 9" 2000].
Proof.
  split; [reflexivity|].
  pose proof (same_callback_twice_keeps_second_only env_offline [] (mount ∅)
                "a-1" 1000 "SUBMIT_ACTIVITY" "activity 1"
                "b-2" 2000 "POST_NOTICE" "notice 9" eq_refl) as H.
  cbv zeta in H. destruct H as (_ & Hq & _). exact Hq.
Defined.

Lemma rejected_write_makes_next_drain_repeat_witness :
  idb one_pending !! QUEUE_KEY = Some (queue one_pending)
  /\ queue one_pending <> []
  /\ set_rejects env_store_full QUEUE_KEY = true
  /\ writable env_online
  /\ invoked (after (syncNow env_online []) (after (syncNow env_store_full []) one_pending))
     = (invoked one_pending
          ++ List.filter (has_executor env_store_full) (queue one_pending))
       ++ List.filter (has_executor env_online) (queue one_pending).
Proof.
  assert (H : idb one_pending !! QUEUE_KEY = Some (queue one_pending)) by reflexivity.
  assert (Hne : queue one_pending <> []) by discriminate.
  split; [exact H|]. split; [exact Hne|]. split; [reflexivity|].
  split; [exact writable_env_online|].
  pose proof (rejected_write_makes_next_drain_repeat env_store_full env_online [] []
                one_pending (queue one_pending) H Hne eq_refl writable_env_online) as Hthm.
  cbv zeta in Hthm. destruct Hthm as (_ & _ & _ & _ & Hinv & _). exact Hinv.
Defined.

Lemma drain_shows_progress_within_bounds_witness :
  idb one_pending !! QUEUE_KEY = Some (queue one_pending)
  /\ queue one_pending <> []
  /\ isSyncing (snd (interleave env_offline
                       (Resume :: [Enqueue "b-2" 2000 "POST_NOTICE" "notice 9"])
                       (AwaitGet [], one_pending))) = true.
Proof.
  assert (H : idb one_pending !! QUEUE_KEY = Some (queue one_pending)) by reflexivity.
  assert (Hne : queue one_pending <> []) by discriminate.
  split; [exact H|]. split; [exact Hne|].
  pose proof (drain_shows_progress_within_bounds env_offline [] one_pending
                (queue one_pending) [Enqueue "b-2" 2000 "POST_NOTICE" "notice 9"] H Hne)
    as Hthm.
  cbv zeta in Hthm. destruct Hthm as [Hrunning _].
  refine (proj1 (Hrunning _)). intros c. vm_compute. discriminate.
Defined.



Lemma retry_that_fails_again_counts_one_witness :
  writable env_offline
  /\ "a-1" ∈ ids (failedQueue one_dead)
  /\ exists a x,
       a ∈ failedQueue one_dead /\ id a = "a-1"
       /\ x ∈ queue (retry env_offline "a-1" one_dead)
       /\ same_action x a /\ retryCount x = Some 1
       /\ idb (retry env_offline "a-1" one_dead) !! QUEUE_KEY
          = Some (queue (retry env_offline "a-1" one_dead)).
Proof.
  assert (Hin : "a-1" ∈ ids (failedQueue one_dead)) by (vm_compute; left).
  split; [exact writable_env_offline|]. split; [exact Hin|].
  apply (retry_that_fails_again_counts_one env_offline one_dead "a-1"
           writable_env_offline Hin).
  intros x Hx _. vm_compute in Hx. apply list_elem_of_singleton in Hx. subst x.
  intros index. eexists. reflexivity.
Defined.

Lemma handleActivitySubmit_offline_then_drain_witness :
  DocData "activity 1" <> DocThrows
  /\ set_rejects env_offline QUEUE_KEY = false
  /\ fst (handleActivitySubmit (fun activityId content user data => content) env_offline
            (queue one_pending) (Some (mkUser "u-7" "Ana")) false (DocData "activity 1")
            "d-4" 4000 "act-2" "answers 2" one_pending) = SavedOffline
  /\ queue (snd (handleActivitySubmit (fun activityId content user data => content)
                   env_offline (queue one_pending) (Some (mkUser "u-7" "Ana")) false
                   (DocData "activity 1") "d-4" 4000 "act-2" "answers 2" one_pending))
     = queue one_pending ++ [newAction "d-4" "SUBMIT_ACTIVITY" "answers 2" 4000].
Proof.
  assert (Hsnap : DocData "activity 1" <> DocThrows) by discriminate.
  split; [exact Hsnap|]. split; [reflexivity|].
  pose proof (handleActivitySubmit_offline_then_drain
                (fun activityId content user data => content) env_offline
                (queue one_pending) (mkUser "u-7" "Ana") one_pending (DocData "activity 1")
                "d-4" 4000 "act-2" "answers 2" Hsnap) as H.
  cbv zeta in H. destruct H as (Hq & Hok & _).
  split; [exact (proj1 (Hok eq_refl))|exact Hq].
Defined.
